(** * redis-cli: a shallow embedding of [redis-cli.go] and its verified properties

    The development follows the layout of the Go source:

    - [Go]        the pieces of the Go standard library the program calls
                  ([strings.ToLower], [strings.Repeat], [strings.Join],
                  [strconv.Atoi], the [fmt] verbs [%d], [%q], [%-4s]);
    - [Regexp]    the regular expression of the command tokenizer and
                  [FindAllString];
    - [Render]    the reply value and the two printers [printStdReply] and
                  [printRawReply];
    - [Cli]       the session state, [cliConnect], [cliSendCommand],
                  [switchMode], [appendHistory], [repl] and [main];
    - [Spec]      the layouts and token shapes the specification words;
    - [Example]   a concrete store and line editor to run the program on.

    The properties follow the definitions, component by component.

    Go strings and byte slices are byte sequences: they are modelled by
    [string], whose characters are the 256 values of [ascii].  A Go [int] is
    64 bits wide: it is a [Z] and the arithmetic of the program wraps
    explicitly through [Go.int_wrap]. *)

From Stdlib Require Import ZArith List String Ascii Bool Lia DecimalString.
Import ListNotations.

Local Open Scope list_scope.
Local Open Scope string_scope.
Local Open Scope Z_scope.

(* ================================================================== *)
(** * The Go run time and standard library                             *)
(* ================================================================== *)

Module Go.

(** A computation that either yields a value or stops in a run-time panic. *)
Inductive result (A : Type) : Type :=
| Ok (a : A)
| Panicked.
Arguments Ok {A} a.
Arguments Panicked {A}.

Definition rbind {A B} (m : result A) (k : A -> result B) : result B :=
  match m with
  | Ok a => k a
  | Panicked => Panicked
  end.

(** ** Machine integers *)

Definition maxInt : Z := 2 ^ 63 - 1.
Definition minInt : Z := - 2 ^ 63.
Definition maxUint64 : Z := 2 ^ 64 - 1.

(** Two's complement wrap-around of a 64-bit [int]. *)
Definition int_wrap (z : Z) : Z := (z + 2 ^ 63) mod 2 ^ 64 - 2 ^ 63.
Definition int_add (a b : Z) : Z := int_wrap (a + b).
Definition int_mul (a b : Z) : Z := int_wrap (a * b).
Definition uint64_wrap (z : Z) : Z := z mod 2 ^ 64.

(** ** Bytes *)

Definition code (c : ascii) : Z := Z.of_nat (nat_of_ascii c).
Definition byte_of (z : Z) : ascii := ascii_of_nat (Z.to_nat z).

Definition newline : ascii := byte_of 10.
Definition dquote : ascii := byte_of 34.
Definition squote : ascii := byte_of 39.
Definition backslash : ascii := byte_of 92.
Definition space : ascii := byte_of 32.

Definition str (c : ascii) : string := String c EmptyString.

Fixpoint all_bytes (p : ascii -> bool) (s : string) : bool :=
  match s with
  | EmptyString => true
  | String c s' => p c && all_bytes p s'
  end.

Fixpoint map_bytes (f : ascii -> ascii) (s : string) : string :=
  match s with
  | EmptyString => EmptyString
  | String c s' => String (f c) (map_bytes f s')
  end.

(** ** [strings.ToLower]

    The library lower-cases an ASCII-only string byte by byte; any other
    string goes through [strings.Map(unicode.ToLower, s)], whose Unicode
    tables are not part of the program: that mapping is the parameter
    [unicode_lower]. *)

Definition is_ascii (c : ascii) : bool := code c <? 128.
Definition is_upper (c : ascii) : bool := (65 <=? code c) && (code c <=? 90).
Definition lower_byte (c : ascii) : ascii :=
  if is_upper c then byte_of (code c + 32) else c.

Section ToLower.
Variable unicode_lower : string -> string.

Definition ToLower (s : string) : string :=
  if all_bytes is_ascii s then map_bytes lower_byte s else unicode_lower s.
End ToLower.

(** ** [strings.ToUpper], with [strings.Map(unicode.ToUpper, s)] as the
    parameter [unicode_upper]. *)

Definition is_lower (c : ascii) : bool := (97 <=? code c) && (code c <=? 122).
Definition upper_byte (c : ascii) : ascii :=
  if is_lower c then byte_of (code c - 32) else c.

Section ToUpper.
Variable unicode_upper : string -> string.

Definition ToUpper (s : string) : string :=
  if all_bytes is_ascii s then map_bytes upper_byte s else unicode_upper s.
End ToUpper.

(** ** [strings.Repeat]: panics on a negative count. *)

Fixpoint repeat_string (s : string) (n : nat) : string :=
  match n with
  | O => EmptyString
  | S n' => s ++ repeat_string s n'
  end.

Definition Repeat (s : string) (count : Z) : result string :=
  if count <? 0 then Panicked
  else if Z.of_nat (String.length s) * count >? maxInt then Panicked
  else Ok (repeat_string s (Z.to_nat count)).

(** ** [strings.Join] *)

Fixpoint Join (elems : list string) (sep : string) : string :=
  match elems with
  | [] => EmptyString
  | [e] => e
  | e :: rest => e ++ sep ++ Join rest sep
  end.

(** ** [strconv.Atoi]

    [Atoi(s)] is [ParseInt(s, 10, 0)] converted to [int].  The result pairs
    the value with the error, [None] standing for [nil]. *)

Inductive NumError : Type := ErrSyntax | ErrRange.

Definition digit (c : ascii) : option Z :=
  if (48 <=? code c) && (code c <=? 57) then Some (code c - 48) else None.

(** The loop of [ParseUint(s, 10, 64)] over the bytes of [s], from the
    accumulator [n]. *)
Fixpoint ParseUint_loop (s : string) (n : Z) : Z * option NumError :=
  match s with
  | EmptyString => (n, None)
  | String c s' =>
      match digit c with
      | None => (0, Some ErrSyntax)
      | Some d =>
          if n >=? maxUint64 / 10 + 1 then (maxUint64, Some ErrRange)
          else
            let n10 := uint64_wrap (n * 10) in
            let n1 := uint64_wrap (n10 + d) in
            if (n1 <? n10) || (n1 >? maxUint64) then (maxUint64, Some ErrRange)
            else ParseUint_loop s' n1
      end
  end.

Definition ParseUint (s : string) : Z * option NumError :=
  match s with
  | EmptyString => (0, Some ErrSyntax)
  | _ => ParseUint_loop s 0
  end.

Definition ParseInt (s : string) : Z * option NumError :=
  match s with
  | EmptyString => (0, Some ErrSyntax)
  | String c0 s' =>
      let neg := Ascii.eqb c0 (byte_of 45) in
      let s1 := if Ascii.eqb c0 (byte_of 43) || neg then s' else s in
      match ParseUint s1 with
      | (_, Some ErrSyntax) => (0, Some ErrSyntax)
      | (un, _) =>
          let cutoff := 2 ^ 63 in
          if negb neg && (un >=? cutoff) then (cutoff - 1, Some ErrRange)
          else if neg && (un >? cutoff) then (- cutoff, Some ErrRange)
          else (int_wrap (if neg then - un else un), None)
      end
  end.

Definition Atoi (s : string) : Z * option NumError := ParseInt s.

(** ** [fmt] verbs *)

(** [%d] of an integer: decimal digits, with a minus sign when negative. *)
Definition fmt_d (n : Z) : string := NilZero.string_of_int (Z.to_int n).

(** [%-4s]: the string, padded with spaces on the right up to width 4. *)
Definition fmt_pad4 (s : string) : string :=
  s ++ repeat_string (str space) (4 - String.length s)%nat.

(** [%q] of a byte slice is [strconv.Quote]: the text between double quotes,
    with Go escapes.  The escapes of the bytes below [0x7f] are fixed by the
    language; a string holding any other byte is quoted rune by rune with the
    library's Unicode tables, which is the parameter [quote_wide]. *)

Definition hex_digit (z : Z) : ascii :=
  if z <? 10 then byte_of (48 + z) else byte_of (97 + z - 10).

Definition escape_byte (c : ascii) : string :=
  let n := code c in
  if (n =? 34) || (n =? 92) then String backslash (str c)
  else if (32 <=? n) && (n <? 127) then str c
  else if n =? 7 then String backslash "a"
  else if n =? 8 then String backslash "b"
  else if n =? 12 then String backslash "f"
  else if n =? 10 then String backslash "n"
  else if n =? 13 then String backslash "r"
  else if n =? 9 then String backslash "t"
  else if n =? 11 then String backslash "v"
  else String backslash
         (String "x" (String (hex_digit (n / 16)) (str (hex_digit (n mod 16))))).

Fixpoint escape (s : string) : string :=
  match s with
  | EmptyString => EmptyString
  | String c s' => escape_byte c ++ escape s'
  end.

Section Quote.
Variable quote_wide : string -> string.

Definition Quote (s : string) : string :=
  if all_bytes (fun c => code c <? 127) s
  then String dquote (escape s ++ str dquote)
  else quote_wide s.
End Quote.

End Go.

Notation "x <- m ;; k" := (Go.rbind m (fun x => k))
  (at level 61, m at next level, right associativity).

(* ================================================================== *)
(** * The command tokenizer                                            *)
(* ================================================================== *)

Module Regexp.
Import Go.

(** The fragment of Go's regular expression syntax [repl] uses.  Matching is
    by bytes: the delimiters of the expression (quotes, white space, newline)
    are ASCII, and every byte of a multi-byte rune is neither of them, so the
    spans found are those of the rune-wise matcher of the library. *)
Inductive regex : Type :=
| Lit (c : ascii)            (* a literal character *)
| AnyChar                    (* .    any character but newline *)
| NotSpace                   (* \S   any character but \t \n \f \r and space *)
| Cat (r1 r2 : regex)        (* r1r2 *)
| Alt (r1 r2 : regex)        (* r1|r2, r1 preferred *)
| LazyStar (r : regex)       (* r*?  zero or more, prefer fewer *)
| Plus (r : regex).          (* r+   one or more, prefer more *)

Definition is_space (c : ascii) : bool :=
  let n := code c in
  (n =? 9) || (n =? 10) || (n =? 12) || (n =? 13) || (n =? 32).

Definition shorter (s' s : string) : bool :=
  (String.length s' <? String.length s)%nat.

(** A matcher takes the input and a continuation: it matches at the start
    of the input and goes on with the continuation on what is left.  The
    answer is the input left after the whole match, if there is one. *)
Definition matcher : Type :=
  string -> (string -> option string) -> option string.

(** [m*?]: first try to go on without another round of [m], then with one.
    A round that consumes nothing is not repeated; [n] bounds the rounds. *)
Fixpoint lazy_star (m : matcher) (k : string -> option string) (n : nat)
  (s : string) {struct n} : option string :=
  match k s with
  | Some rest => Some rest
  | None =>
      match n with
      | O => None
      | S n' =>
          m s (fun s' => if shorter s' s then lazy_star m k n' s' else None)
      end
  end.

(** [m+]: one round of [m], then first try another round, then go on. *)
Fixpoint greedy_plus (m : matcher) (k : string -> option string) (n : nat)
  (s : string) {struct n} : option string :=
  m s (fun s' =>
         match n with
         | O => k s'
         | S n' =>
             match (if shorter s' s then greedy_plus m k n' s' else None) with
             | Some rest => Some rest
             | None => k s'
             end
         end).

(** [run r]: the matcher of [r].  The alternatives are explored in the order
    of preference of a backtracking matcher, which is Go's leftmost-first
    rule. *)
Fixpoint run (r : regex) (s : string) (k : string -> option string)
  {struct r} : option string :=
  match r with
  | Lit c =>
      match s with
      | String c' s' => if Ascii.eqb c' c then k s' else None
      | EmptyString => None
      end
  | AnyChar =>
      match s with
      | String c' s' => if Ascii.eqb c' newline then None else k s'
      | EmptyString => None
      end
  | NotSpace =>
      match s with
      | String c' s' => if is_space c' then None else k s'
      | EmptyString => None
      end
  | Cat r1 r2 => run r1 s (fun s' => run r2 s' k)
  | Alt r1 r2 =>
      match run r1 s k with
      | Some rest => Some rest
      | None => run r2 s k
      end
  | LazyStar r1 => lazy_star (run r1) k (String.length s) s
  | Plus r1 => greedy_plus (run r1) k (String.length s) s
  end.

(** The successive matches, from left to right: where the expression matches
    at the current position the matched span is delivered and the search goes
    on after it, otherwise the search moves one character on.  (No match of
    the program's expression is empty.) *)
Fixpoint find_all (fuel : nat) (r : regex) (s : string) : list string :=
  match fuel, s with
  | S fuel', String _ s' =>
      match run r s Some with
      | Some rest =>
          if shorter rest s
          then substring 0 (String.length s - String.length rest) s
                 :: find_all fuel' r rest
          else find_all fuel' r s'
      | None => find_all fuel' r s'
      end
  | _, _ => []
  end.

(** [re.FindAllString(s, -1)] *)
Definition FindAllString (r : regex) (s : string) : list string :=
  find_all (String.length s) r s.

(** [regexp.Compile(`'.*?'|".*?"|\S+`)] *)
Definition reg : regex :=
  Alt (Cat (Lit squote) (Cat (LazyStar AnyChar) (Lit squote)))
      (Alt (Cat (Lit dquote) (Cat (LazyStar AnyChar) (Lit dquote)))
           (Plus NotSpace)).

(** The tokens of an input line, as [repl] computes them. *)
Definition tokenize (line : string) : list string := FindAllString reg line.

(** The matcher of [reg] written out, for the proofs: [close_quote q s] looks
    for the first [q] of [s] and fails at a newline; [skip_run s] drops the
    characters of [s] up to the first white space; [scan] tries a
    single-quoted span, then a double-quoted span, then a run. *)
Fixpoint close_quote (q : ascii) (s : string) : option string :=
  match s with
  | EmptyString => None
  | String c r =>
      if Ascii.eqb c q then Some r
      else if Ascii.eqb c newline then None
      else close_quote q r
  end.

Fixpoint skip_run (s : string) : string :=
  match s with
  | EmptyString => EmptyString
  | String c r => if is_space c then s else skip_run r
  end.

Definition scan (s : string) : option string :=
  match s with
  | EmptyString => None
  | String c s' =>
      match (if Ascii.eqb c squote then close_quote squote s' else None) with
      | Some rest => Some rest
      | None =>
          match (if Ascii.eqb c dquote then close_quote dquote s' else None)
          with
          | Some rest => Some rest
          | None => if is_space c then None else Some (skip_run s')
          end
      end
  end.

End Regexp.

(* ================================================================== *)
(** * The reply renderer                                               *)
(* ================================================================== *)

Module Render.
Import Go.

(** The dynamic value [client.Do(...).Result()] yields, by the cases of the
    type switches of [printStdReply] and [printRawReply].  [ROther] is a value
    of any other dynamic type; it carries its [%+v] text. *)
Inductive reply : Type :=
| RInt (n : Z)                (* int64 *)
| RString (s : string)        (* string *)
| RBytes (b : string)         (* []byte *)
| RNil                        (* nil *)
| RError (msg : string)       (* redis.Error, with its Error() text *)
| RArray (vs : list reply)    (* []interface{} *)
| ROther (repr : string).

(** Output modes: [stdMode = iota], [rawMode]. *)
Definition stdMode : Z := 0.
Definition rawMode : Z := 1.

(** [for i, v := range l { body }], where the body prints a text or panics. *)
Section ForRange.
Context {A : Type}.
Variable body : nat -> A -> result string.

Fixpoint for_range (i : nat) (l : list A) : result string :=
  match l with
  | [] => Ok EmptyString
  | v :: l' =>
      s <- body i v ;;
      t <- for_range (S i) l' ;;
      Ok (s ++ t)
  end.
End ForRange.

Section Printers.
Variable quote_wide : string -> string.

Fixpoint printStdReply (level : Z) (reply : reply) {struct reply}
  : result string :=
  match reply with
  | RInt n => Ok ("(integer) " ++ fmt_d n)
  | RString s => Ok s
  | RBytes b => Ok (Quote quote_wide b)
  | RNil => Ok "(nil)"
  | RError msg => Ok ("(error) " ++ msg)
  | RArray vs =>
      for_range
        (fun i v =>
           indent <- (if negb (Z.of_nat i =? 0)
                      then Repeat (str space) (int_mul level 4)
                      else Ok EmptyString) ;;
           let s := fmt_d (int_add (Z.of_nat i) 1) ++ ") " in
           body <- printStdReply (int_add level 1) v ;;
           Ok (indent ++ fmt_pad4 s ++ body ++
               (if negb (Z.of_nat i =? Z.of_nat (List.length vs) - 1)
                then str newline else EmptyString)))
        O vs
  | ROther repr => Ok ("Unknown reply type: " ++ repr)
  end.

Fixpoint printRawReply (level : Z) (reply : reply) {struct reply}
  : result string :=
  match reply with
  | RInt n => Ok (fmt_d n)
  | RString s => Ok s
  | RBytes b => Ok b
  | RNil => Ok EmptyString
  | RError msg => Ok (msg ++ str newline)
  | RArray vs =>
      for_range
        (fun i v =>
           indent <- (if negb (Z.of_nat i =? 0)
                      then Repeat (str space) (int_mul level 4)
                      else Ok EmptyString) ;;
           body <- printRawReply (int_add level 1) v ;;
           Ok (indent ++ body ++
               (if negb (Z.of_nat i =? Z.of_nat (List.length vs) - 1)
                then str newline else EmptyString)))
        O vs
  | ROther repr => Ok ("Unknown reply type: " ++ repr)
  end.

Definition printReply (level : Z) (reply : reply) (mode : Z)
  : result string :=
  if mode =? stdMode then printStdReply level reply
  else if mode =? rawMode then printRawReply level reply
  else printStdReply level reply.

(** [printInfo] prints a byte slice verbatim, an error with its marker and
    nothing for any other value. *)
Definition printInfo (reply : reply) : string :=
  match reply with
  | RBytes b => b
  | RError msg => "(error) " ++ msg
  | _ => EmptyString
  end.
End Printers.

(** Nesting depth of a reply: the number of array levels on its deepest
    path. *)
Fixpoint depth (r : reply) : Z :=
  match r with
  | RArray vs => 1 + fold_right (fun v d => Z.max (depth v) d) 0 vs
  | _ => 0
  end.

End Render.

(* ================================================================== *)
(** * The client: session state, dispatch and the read-eval-print loop *)
(* ================================================================== *)

Module Cli.
Import Go Regexp Render.

(** The calls the program makes to the store client and to the line editor,
    in the order they are made. *)
Inductive call : Type :=
| CallPing                         (* client.Ping(ctx) *)
| CallDo (args : list string)      (* client.Do(ctx, args...) *)
| CallPrompt (prompt : string).    (* line.Prompt(prompt) *)

(** The package-level variables the program mutates, with the two output
    streams and the log of calls. *)
Record state : Type := mkState {
  client : bool;            (* client != nil *)
  dbn : Z;                  (* *dbn *)
  mode : Z;                 (* mode *)
  history : list string;    (* the history kept by the line editor *)
  stdout : string;
  stderr : string;
  calls : list call
}.

Definition set_client (b : bool) (st : state) : state :=
  mkState b (dbn st) (mode st) (history st) (stdout st) (stderr st) (calls st).
Definition set_dbn (n : Z) (st : state) : state :=
  mkState (client st) n (mode st) (history st) (stdout st) (stderr st)
          (calls st).
Definition set_mode (m : Z) (st : state) : state :=
  mkState (client st) (dbn st) m (history st) (stdout st) (stderr st)
          (calls st).
Definition set_history (h : list string) (st : state) : state :=
  mkState (client st) (dbn st) (mode st) h (stdout st) (stderr st) (calls st).
Definition print (s : string) (st : state) : state :=
  mkState (client st) (dbn st) (mode st) (history st) (stdout st ++ s)
          (stderr st) (calls st).
Definition eprint (s : string) (st : state) : state :=
  mkState (client st) (dbn st) (mode st) (history st) (stdout st)
          (stderr st ++ s) (calls st).
Definition log (c : call) (st : state) : state :=
  mkState (client st) (dbn st) (mode st) (history st) (stdout st) (stderr st)
          (calls st ++ [c])%list.

(** How a function of the program ends: it returns, the process exits
    through [os.Exit], or a run-time panic unwinds it. *)
Inductive outcome (A : Type) : Type :=
| Return (a : A) (st : state)
| Exit (code : Z) (st : state)
| Panic (st : state).
Arguments Return {A} a st.
Arguments Exit {A} code st.
Arguments Panic {A} st.

Definition bind {A B} (m : outcome A) (k : A -> state -> outcome B)
  : outcome B :=
  match m with
  | Return a st => k a st
  | Exit code st => Exit code st
  | Panic st => Panic st
  end.

(** The text a printer produced goes to standard output; its panic unwinds. *)
Definition emit (r : result string) (st : state) : outcome unit :=
  match r with
  | Ok s => Return tt (print s st)
  | Panicked => Panic st
  end.

(** [l[i]]: a slice index out of range panics. *)
Definition index (l : list string) (i : nat) (st : state) : outcome string :=
  match nth_error l i with
  | Some x => Return x st
  | None => Panic st
  end.

(** [l[i] = x] for an index in range. *)
Fixpoint assign (l : list string) (i : nat) (x : string) : list string :=
  match l, i with
  | [], _ => []
  | _ :: l', O => x :: l'
  | y :: l', S i' => y :: assign l' i' x
  end.

Definition nl : string := str newline.
Definition tab : string := str (byte_of 9).

Definition usage : string := "invalid args. Should be MODE [raw|std]".

Definition mask : string := "******".

Section Program.
(** The environment of the program: the Unicode tables of the library, the
    store behind the client, the line editor and the command table
    [helpCommands], which is declared outside [redis-cli.go]. *)
Variable unicode_lower : string -> string.
Variable unicode_upper : string -> string.
Variable quote_wide : string -> string.

(** The store: what a ping and a request answer after the calls made so
    far.  A request yields a value and an error, [None] being [nil]. *)
Variable redis_Ping : list call -> option string.
Variable redis_Do : list call -> list string -> reply * option string.

(** [line.AppendHistory(item)] on the history of the line editor. *)
Variable liner_AppendHistory : list string -> string -> list string.

Variable helpCommands : list (list string).

(** The flags [-h], [-p] and [-s]. *)
Variables hostname port socket : string.

Let lower : string -> string := ToLower unicode_lower.

Definition addr : string :=
  if (0 <? Z.of_nat (String.length socket)) then socket
  else hostname ++ ":" ++ port.

Definition sendPing (st : state) : state * option string :=
  let err := redis_Ping (calls st) in
  let st := log CallPing st in
  match err with
  | Some e => (print (e ++ nl) st, Some e)
  | None => (st, None)
  end.

Definition cliConnect (st : state) : outcome unit :=
  if negb (client st) then
    let st := set_client true st in
    match sendPing st with
    | (st, Some _) => Exit 1 st
    | (st, None) => Return tt st
    end
  else Return tt st.

Definition appendHistory (cmds : list string) (st : state) : state :=
  let cloneCmds := cmds in
  let cloneCmds :=
    if (List.length cloneCmds =? 2)%nat
       && (lower (nth 0 cloneCmds EmptyString) =? "auth")%string
    then assign cloneCmds 1 mask else cloneCmds in
  let cloneCmds :=
    if (List.length cloneCmds =? 4)%nat
       && (lower (nth 0 cloneCmds EmptyString) =? "connect")%string
    then assign cloneCmds 3 mask else cloneCmds in
  set_history (liner_AppendHistory (history st) (Join cloneCmds " ")) st.

Definition is_nil (err : option string) : bool :=
  match err with
  | None => true
  | Some _ => false
  end.

Definition cliSendCommand (cmds : list string) (st : state) : outcome Z :=
  bind (cliConnect st) (fun _ st =>
  let arg := EmptyString in
  match cmds with
  | [] => Return 0 st
  | c0 :: _ =>
      let cmd := lower c0 in
      let '(r, err) := redis_Do (calls st) [cmd; arg] in
      let st := log (CallDo [cmd; arg]) st in
      bind (if is_nil err && (lower cmd =? "select")%string
            then bind (index cmds 1 st) (fun a st =>
                   Return tt (set_dbn (fst (Atoi a)) st))
            else Return tt st) (fun _ st =>
      match err with
      | Some e => Return (-1) (print ("(error) " ++ e ++ nl) st)
      | None =>
          bind (if (cmd =? "info")%string
                then Return tt (print (printInfo r) st)
                else emit (printReply quote_wide 0 r (mode st)) st)
               (fun _ st => Return 0 (print nl st))
      end)
  end).

Definition switchMode (args : list string) (st : state) : state :=
  match args with
  | [a0] =>
      let m := lower a0 in
      if negb (m =? "raw")%string && negb (m =? "std")%string
      then print (usage ++ nl) st
      else if (m =? "std")%string then set_mode stdMode st
      else if (m =? "raw")%string then set_mode rawMode st
      else st
  | _ => print (usage ++ nl) st
  end.

Definition noninteractive (args : list string) (st : state) : outcome Z :=
  cliSendCommand args st.

Definition printGenericHelp (st : state) : state :=
  print ("redis-cli" ++ nl ++ "Type:" ++ tab ++ str dquote
         ++ "help <command>" ++ str dquote ++ " for help on <command>"
         ++ nl ++ tab ++ nl) st.

Definition printCommandHelp (arr : list string) (st : state)
  : outcome unit :=
  let st := print nl st in
  bind (index arr 0 st) (fun a0 st =>
  bind (index arr 1 st) (fun a1 st =>
  let st := print (tab ++ a0 ++ " " ++ a1 ++ " " ++ nl) st in
  bind (index arr 2 st) (fun a2 st =>
  let st := print (tab ++ "Group: " ++ a2 ++ " " ++ nl) st in
  Return tt (print nl st)))).

Fixpoint printHelp_loop (cmd : string) (table : list (list string))
  (st : state) : outcome unit :=
  match table with
  | [] => Return tt st
  | row :: table' =>
      bind (index row 0 st) (fun name st =>
      bind (if (name =? cmd)%string then printCommandHelp row st
            else Return tt st) (fun _ st =>
      printHelp_loop cmd table' st))
  end.

Definition printHelp (cmds : list string) (st : state) : outcome unit :=
  match cmds with
  | [] => Panic st
  | _ :: args =>
      match args with
      | [] => Return tt (printGenericHelp st)
      | [a0] => printHelp_loop (ToUpper unicode_upper a0) helpCommands st
      | _ => Return tt (print nl st)
      end
  end.

Definition showWelcomeMsg (st : state) : state :=
  print (nl ++ tab ++ "Welcome to redis-cli online." ++ nl
         ++ tab ++ "You can switch to different redis instance with the "
         ++ "CONNECT command. " ++ nl
         ++ tab ++ "Usage: CONNECT host port [auth]" ++ nl
         ++ nl
         ++ tab ++ "Switch output mode with MODE command. " ++ nl
         ++ nl
         ++ tab ++ "Usage: MODE [std | raw]" ++ nl
         ++ tab ++ nl) st.

(** What [line.Prompt] hands back: a line, or an error (end of input,
    interrupt).  A terminal is the list of what its prompts hand back, in
    order; once it is used up every prompt fails with [EOF]. *)
Inductive prompt_result : Type :=
| Line (cmd : string)
| PromptErr (msg : string).

Definition prompt_text (st : state) : string :=
  if (0 <? dbn st) && (dbn st <? 16)
  then addr ++ "[" ++ fmt_d (dbn st) ++ "]> "
  else addr ++ "> ".

(** The [for] loop of [repl]. *)
Fixpoint repl_loop (terminal : list prompt_result) (st : state)
  : outcome unit :=
  let st := log (CallPrompt (prompt_text st)) st in
  match terminal with
  | [] => Return tt (print ("EOF" ++ nl) st)
  | PromptErr msg :: _ => Return tt (print (msg ++ nl) st)
  | Line cmd :: terminal' =>
      let cmds := tokenize cmd in
      match cmds with
      | [] => repl_loop terminal' st
      | c0 :: _ =>
          let st := appendHistory cmds st in
          let cmd := lower c0 in
          bind (if (cmd =? "help")%string || (cmd =? "?")%string
                then printHelp cmds st
                else if (cmd =? "quit")%string || (cmd =? "exit")%string
                then Exit 0 st
                else if (cmd =? "clear")%string
                then Return tt (eprint ("Please use Ctrl + L instead" ++ nl)
                                       st)
                else if (cmd =? "mode")%string
                then Return tt (switchMode (tl cmds) st)
                else bind (cliSendCommand cmds st)
                          (fun _ st => Return tt st))
               (fun _ st => repl_loop terminal' st)
      end
  end.

(** [repl], without the files of the line editor: the history it starts
    from is the [history] of the state it is run in. *)
Definition repl (showWelcome : bool) (terminal : list prompt_result)
  (st : state) : outcome unit :=
  bind (cliConnect st) (fun _ st =>
  let st := if showWelcome then showWelcomeMsg st else st in
  repl_loop terminal st).

(** [main], after [flag.Parse()]: [args] are the positional arguments. *)
Definition main (outputRaw showWelcome : bool) (args : list string)
  (terminal : list prompt_result) (st : state) : outcome Z :=
  let st := set_mode (if outputRaw then rawMode else stdMode) st in
  bind (if (List.length args =? 0)%nat
        then repl showWelcome terminal st
        else Return tt st) (fun _ st =>
  bind (noninteractive args st) (fun code st => Exit code st)).
End Program.

(** The state at process start: no client, database [n] (flag [-n]). *)
Definition initial (n : Z) : state :=
  mkState false n stdMode [] EmptyString EmptyString [].

(** The status the operating system reports for a finished process:
    [os.Exit(code)] keeps the low eight bits of the code, a panic that
    reaches the top of the stack ends the process with status 2.  A function
    that returns has not ended the process. *)
Definition exit_status {A} (o : outcome A) : option Z :=
  match o with
  | Return _ _ => None
  | Exit code _ => Some (code mod 256)
  | Panic _ => Some 2
  end.

Definition final_state {A} (o : outcome A) : state :=
  match o with
  | Return _ st | Exit _ st | Panic st => st
  end.

End Cli.

(* ================================================================== *)
(** * The specification's words, as definitions                        *)
(* ================================================================== *)

Module Spec.
Import Go Regexp Render Cli.

(** The label of the [i]-th element (from 0) of a numbered list: its number,
    a closing parenthesis and a space, in a column four wide. *)
Definition label (i : nat) : string :=
  fmt_pad4 (fmt_d (Z.of_nat i + 1) ++ ") ").

Definition spaces (n : Z) : string := repeat_string " " (Z.to_nat n).

(** The numbered list of the standard mode at level [L], for the texts [ss]
    of the elements from index [i] on, in a sequence of [n] elements: every
    element but the first is indented by [4 * L] spaces, every element but
    the last is followed by a newline. *)
Fixpoint numbered_list (L : Z) (n i : nat) (ss : list string) : string :=
  match ss with
  | [] => EmptyString
  | s :: ss' =>
      (if (i =? 0)%nat then EmptyString else spaces (4 * L))
      ++ label i ++ s
      ++ (if (S i =? n)%nat then EmptyString else nl)
      ++ numbered_list L n (S i) ss'
  end.

(** The same layout without labels: the sequence of the raw mode. *)
Fixpoint plain_list (L : Z) (n i : nat) (ss : list string) : string :=
  match ss with
  | [] => EmptyString
  | s :: ss' =>
      (if (i =? 0)%nat then EmptyString else spaces (4 * L))
      ++ s
      ++ (if (S i =? n)%nat then EmptyString else nl)
      ++ plain_list L n (S i) ss'
  end.

(** The number a text of decimal digits denotes, continuing the number
    [acc]; [None] when a character is not a digit. *)
Fixpoint decimal_value (s : string) (acc : Z) : option Z :=
  match s with
  | EmptyString => Some acc
  | String c s' =>
      match digit c with
      | Some d => decimal_value s' (10 * acc + d)
      | None => None
      end
  end.

(** The integer a numeral denotes: an optional sign, then at least one
    digit, then nothing. *)
Definition numeral_value (s : string) : option Z :=
  match s with
  | EmptyString => None
  | String c0 s' =>
      let neg := Ascii.eqb c0 (byte_of 45) in
      let digits := if Ascii.eqb c0 (byte_of 43) || neg then s' else s in
      match digits with
      | EmptyString => None
      | _ => option_map (fun v => if neg then - v else v)
                        (decimal_value digits 0)
      end
  end.

(** White space only. *)
Definition blank (s : string) : bool := all_bytes is_space s.

(** A text that can stand between two quotes [q]: it holds neither [q] nor
    a newline. *)
Definition inner (q : ascii) (m : string) : bool :=
  all_bytes (fun c => negb (Ascii.eqb c q) && negb (Ascii.eqb c newline)) m.

(** A span between two quotes [q]: the opening quote, a text without that
    quote and without a newline, the closing quote.  The quotes are part of
    the span. *)
Definition quoted (q : ascii) (t : string) : Prop :=
  exists m : string, t = String q (m ++ str q) /\ inner q m = true.

(** The quote [q] closes in [s]: [s] holds a [q] with neither a [q] nor a
    newline before it. *)
Definition closes (q : ascii) (s : string) : Prop :=
  exists m r : string, s = m ++ String q r /\ inner q m = true.

Definition is_quote (c : ascii) : bool :=
  Ascii.eqb c squote || Ascii.eqb c dquote.

(** A run of characters that are not white space, up to the white space or
    the end of the line in front of [rest]: the run is not empty and [rest]
    is empty or starts with white space.  Nothing is said of what stands
    before the run. *)
Definition run_to_space (t rest : string) : Prop :=
  t <> EmptyString
  /\ all_bytes (fun c => negb (is_space c)) t = true
  /\ (rest = EmptyString
      \/ exists c r, rest = String c r /\ is_space c = true).

(** A maximal run of characters of [line] that are not white space, as the
    words read: a piece of the line, not empty, without white space, that
    can be extended neither to the left nor to the right. *)
Definition maximal_run_of (line t : string) : Prop :=
  exists pre post : string,
    line = pre ++ t ++ post
    /\ t <> EmptyString
    /\ all_bytes (fun c => negb (is_space c)) t = true
    /\ (pre = EmptyString
        \/ exists p c, pre = p ++ str c /\ is_space c = true)
    /\ (post = EmptyString
        \/ exists c r, post = String c r /\ is_space c = true).

(** [token_at t rest]: [t] is the token at the start of [t ++ rest].  It is
    a quoted span, ending at the first closing quote; or, when it does not
    start with a quote that closes further on, a run up to the next white
    space. *)
Inductive token_at : string -> string -> Prop :=
| quoted_token (q : ascii) (t rest : string) :
    is_quote q = true -> quoted q t -> token_at t rest
| run_token (c : ascii) (t rest : string) :
    run_to_space (String c t) rest ->
    (is_quote c = true -> ~ closes c (t ++ rest)) ->
    token_at (String c t) rest.

(** [tokens_of line ts]: the line is white space, the first token, white
    space, the second token, and so on up to white space at the end. *)
Inductive tokens_of : string -> list string -> Prop :=
| tokens_done (ws : string) :
    blank ws = true -> tokens_of ws []
| tokens_next (ws t rest : string) (ts : list string) :
    blank ws = true -> token_at t rest -> tokens_of rest ts ->
    tokens_of (ws ++ t ++ rest) (t :: ts).

(** The example line of the specification: [SET key "hello world"]. *)
Definition set_key_hello_world : string :=
  "SET key " ++ str dquote ++ "hello world" ++ str dquote.

End Spec.

(* ================================================================== *)
(** * A concrete environment, for running the program                  *)
(* ================================================================== *)

Module Example.
Import Go Regexp Render Cli.

(** Stands for the Unicode tables; they are not consulted on the ASCII
    inputs below. *)
Definition no_tables (s : string) : string := s.

Definition ping_ok (_ : list call) : option string := None.
Definition ping_refused (_ : list call) : option string :=
  Some "dial tcp 127.0.0.1:6379: connect: connection refused".

(** A store that acknowledges every request, and one that rejects every
    request. *)
Definition store_ok (_ : list call) (_ : list string)
  : reply * option string := (RString "OK", None).
Definition store_err (_ : list call) (_ : list string)
  : reply * option string := (RNil, Some "ERR unknown command").

(** A line editor that keeps every entry. *)
Definition keep_all (h : list string) (item : string) : list string :=
  (h ++ [item])%list.

(** The process run with positional arguments [args] on the default flags. *)
Definition run_main (ping : list call -> option string)
  (store : list call -> list string -> reply * option string)
  (args : list string) : outcome Z :=
  main no_tables no_tables no_tables ping store keep_all []
       "127.0.0.1" "6379" EmptyString false false args [] (initial 0).

(** The nested sequence [[1, "two", [3, nil]]]. *)
Definition nested : list reply :=
  [RInt 1; RString "two"; RArray [RInt 3; RNil]].

(** A numeral beyond the range of [int]. *)
Definition big_index : string := "99999999999999999999".

(** The state of a fresh process once [cliConnect] has returned. *)
Definition connected : state :=
  mkState true 0 stdMode [] EmptyString EmptyString [CallPing].

(** A store that answers every request with the integer 5, and an
    interactive session on it. *)
Definition store_five (_ : list call) (_ : list string)
  : reply * option string := (RInt 5, None).

Definition session (terminal : list prompt_result) : outcome unit :=
  repl no_tables no_tables no_tables ping_ok store_five keep_all []
       "127.0.0.1" "6379" EmptyString false terminal (initial 0).

End Example.

(* ================================================================== *)
(** * The completion handler                                           *)
(* ================================================================== *)

Module Shell.
Import Go.

(** [strings.HasPrefix(s, prefix)] *)
Fixpoint HasPrefix (s prefix : string) : bool :=
  match prefix, s with
  | EmptyString, _ => true
  | String p prefix', String c s' => Ascii.eqb c p && HasPrefix s' prefix'
  | String _ _, EmptyString => false
  end.

Section Completer.
Variable unicode_upper : string -> string.
Variable helpCommands : list (list string).

(** The loop of the function [setCompletionHandler] installs, over the rows
    of the command table: the name [i[0]] of a row is appended to the
    candidates when it starts with [up]; a row without a name panics. *)
Fixpoint completer_loop (up : string) (table : list (list string))
  : result (list string) :=
  match table with
  | [] => Ok []
  | i :: table' =>
      match nth_error i 0 with
      | None => Panicked
      | Some name =>
          c <- completer_loop up table' ;;
          Ok (if HasPrefix name up then name :: c else c)
      end
  end.

(** The completer: the candidates for the text [line] typed so far. *)
Definition completer (line : string) : result (list string) :=
  completer_loop (ToUpper unicode_upper line) helpCommands.
End Completer.

End Shell.

(* ================================================================== *)
(** * Measures and shapes the further properties are stated with       *)
(* ================================================================== *)

Module Props.
Import Go Regexp Render Cli Spec.

Definition is_ping (c : call) : bool :=
  match c with
  | CallPing => true
  | _ => false
  end.

Definition is_request (c : call) : bool :=
  match c with
  | CallDo _ => true
  | _ => false
  end.

(** The number of pings, and of requests, in a log of calls. *)
Definition pings (cs : list call) : nat := List.length (filter is_ping cs).
Definition requests (cs : list call) : nat :=
  List.length (filter is_request cs).

(** A word that needs no quoting: not empty, without white space, and not
    starting with a quote. *)
Definition plain_word (w : string) : bool :=
  match w with
  | EmptyString => false
  | String c _ =>
      negb (Ascii.eqb c squote) && negb (Ascii.eqb c dquote)
      && all_bytes (fun c => negb (is_space c)) w
  end.

(** The texts [ss], each after its label, numbered from [i]. *)
Fixpoint labelled (i : nat) (ss : list string) : list string :=
  match ss with
  | [] => []
  | s :: ss' => (label i ++ s) :: labelled (S i) ss'
  end.

(** The first token of a line is one of the commands [repl] handles without
    the store. *)
Definition meta_command (cmd : string) : bool :=
  (cmd =? "help")%string || (cmd =? "?")%string || (cmd =? "quit")%string
  || (cmd =? "exit")%string || (cmd =? "clear")%string
  || (cmd =? "mode")%string.

(** [st'] is [st] after some text went to standard output, and nothing
    else changed. *)
Definition only_prints (st st' : state) : Prop :=
  exists s : string, st' = print s st.

(** The process has not ended with a status other than 0: the function
    returned, the process exited with code 0, or it panicked. *)
Definition no_error_exit {A : Type} (o : outcome A) : Prop :=
  match o with
  | Exit code _ => code = 0
  | _ => True
  end.

(** A function handled its work locally: it returned or panicked after
    printing, and did nothing else. *)
Definition local_outcome {A : Type} (st : state) (o : outcome A) : Prop :=
  match o with
  | Exit _ _ => False
  | Return _ st' | Panic st' => only_prints st st'
  end.

(** From [st], the client is still there at the end, no ping was made, at
    most [n] requests were, and the process did not end with a status other
    than 0. *)
Definition session_ok {A : Type} (n : nat) (st : state) (o : outcome A)
  : Prop :=
  client (final_state o) = true
  /\ pings (calls (final_state o)) = pings (calls st)
  /\ (requests (calls (final_state o)) <= requests (calls st) + n)%nat
  /\ no_error_exit o.

Definition is_prompt (c : call) : bool :=
  match c with
  | CallPrompt _ => true
  | _ => false
  end.

(** The number of prompts in a log of calls. *)
Definition prompts (cs : list call) : nat :=
  List.length (filter is_prompt cs).

(** [paced may terminal cs]: in the log [cs] of a session on [terminal],
    whose k-th prompt hands back the k-th entry of [terminal], every request
    comes after a prompt that read a line, and at most one request comes
    between that prompt and the next.  [may] tells whether a request may
    come before the first prompt of [cs].  After a prompt that failed no
    request may come at all. *)
Fixpoint paced (may : bool) (terminal : list prompt_result) (cs : list call)
  : bool :=
  match cs with
  | [] => true
  | CallPing :: cs' => paced may terminal cs'
  | CallDo _ :: cs' => may && paced false terminal cs'
  | CallPrompt _ :: cs' =>
      match terminal with
      | Line _ :: terminal' => paced true terminal' cs'
      | _ => paced false [] cs'
      end
  end.

(** The number of prompts of the log [cs] that read a line of
    [terminal]. *)
Fixpoint lines_read (terminal : list prompt_result) (cs : list call) : nat :=
  match cs with
  | [] => 0
  | CallPrompt _ :: cs' =>
      match terminal with
      | Line _ :: terminal' => S (lines_read terminal' cs')
      | _ => lines_read [] cs'
      end
  | _ :: cs' => lines_read terminal cs'
  end.

(** From [st] the log of calls grew by [new], and [new] has no prompt and at
    most one request. *)
Definition one_request {A : Type} (st : state) (o : outcome A) : Prop :=
  exists new : list call,
    calls (final_state o) = (calls st ++ new)%list
    /\ prompts new = 0%nat
    /\ (requests new <= 1)%nat.

(** A command table for the examples. *)
Definition help_table : list (list string) :=
  [["GET"; "key"; "string"]; ["GETSET"; "key value"; "string"];
   ["SET"; "key value"; "string"]].

End Props.

(* ================================================================== *)
(** * Facts about the library functions                                *)
(* ================================================================== *)

Import Go Regexp Render Cli Spec Example.

Lemma append_nil_r (s : string) : s ++ EmptyString = s.
Proof. induction s as [|c s IH]; simpl; [reflexivity | now rewrite IH]. Qed.

Lemma append_assoc (s t u : string) : (s ++ t) ++ u = s ++ (t ++ u).
Proof. induction s as [|c s IH]; simpl; [reflexivity | now rewrite IH]. Qed.

Lemma length_append (s t : string) :
  String.length (s ++ t) = (String.length s + String.length t)%nat.
Proof. induction s as [|c s IH]; simpl; [reflexivity | now rewrite IH]. Qed.

Lemma int_wrap_small (z : Z) : minInt <= z <= maxInt -> int_wrap z = z.
Proof.
  unfold minInt, maxInt, int_wrap. intros Hz.
  rewrite Z.mod_small; lia.
Qed.

Lemma int_add_small (a b : Z) :
  minInt <= a + b <= maxInt -> int_add a b = a + b.
Proof. apply int_wrap_small. Qed.

Lemma int_mul_small (a b : Z) :
  minInt <= a * b <= maxInt -> int_mul a b = a * b.
Proof. apply int_wrap_small. Qed.

Lemma Repeat_space (n : Z) :
  0 <= n <= maxInt -> Repeat (str space) n = Ok (spaces n).
Proof.
  intros Hn. unfold Repeat.
  destruct (n <? 0) eqn:E; [apply Z.ltb_lt in E; lia|].
  change (Z.of_nat (String.length (str space))) with 1.
  destruct (1 * n >? maxInt) eqn:E'; [|reflexivity].
  apply Z.gtb_lt in E'. lia.
Qed.

(** The indentation of a continuation line at a level the program can
    reach. *)
Lemma indent_level (L : Z) :
  0 <= L < 2 ^ 61 -> Repeat (str space) (int_mul L 4) = Ok (spaces (4 * L)).
Proof.
  intros HL.
  assert (Hb : minInt <= L * 4 <= maxInt) by (unfold minInt, maxInt; lia).
  rewrite (int_mul_small _ _ Hb), (Z.mul_comm L 4).
  apply Repeat_space. unfold maxInt. lia.
Qed.

(** A label starts with the number of the element and [") "]; what follows
    is padding. *)
Lemma label_prefix (i : nat) :
  exists pad, label i = fmt_d (Z.of_nat i + 1) ++ ") " ++ pad
              /\ all_bytes (Ascii.eqb space) pad = true.
Proof.
  unfold label, fmt_pad4.
  exists (repeat_string (str space)
            (4 - String.length (fmt_d (Z.of_nat i + 1) ++ ") "))).
  split; [now rewrite append_assoc|].
  generalize (4 - String.length (fmt_d (Z.of_nat i + 1) ++ ") "))%nat.
  intros n. induction n as [|n IH]; simpl; [reflexivity | exact IH].
Qed.

(* ================================================================== *)
(** * Every reply the store can send is rendered                       *)
(* ================================================================== *)

(** Induction on replies, with the hypothesis for every element of a
    sequence. *)
Lemma reply_nested_ind (P : reply -> Prop) :
  (forall n, P (RInt n)) ->
  (forall s, P (RString s)) ->
  (forall b, P (RBytes b)) ->
  P RNil ->
  (forall msg, P (RError msg)) ->
  (forall vs, Forall P vs -> P (RArray vs)) ->
  (forall repr, P (ROther repr)) ->
  forall r, P r.
Proof.
  intros Hint Hstr Hbytes Hnil Herr Harr Hother.
  fix IH 1.
  intros [n|s|b| |msg|vs|repr];
    [apply Hint | apply Hstr | apply Hbytes | apply Hnil | apply Herr
    | | apply Hother].
  apply Harr.
  induction vs as [|v vs IHvs]; constructor; [apply IH | exact IHvs].
Qed.

Lemma depth_nonneg (r : reply) : 0 <= depth r.
Proof.
  induction r using reply_nested_ind; cbn [depth]; try lia.
  assert (0 <= fold_right (fun v d => Z.max (depth v) d) 0 vs); [|lia].
  induction vs; cbn [fold_right]; [lia|]. inversion H; subst. lia.
Qed.

Lemma depth_element (v : reply) (vs : list reply) :
  In v vs -> depth v < depth (RArray vs).
Proof.
  intros Hin. cbn [depth].
  assert (depth v <= fold_right (fun v d => Z.max (depth v) d) 0 vs); [|lia].
  induction vs as [|w vs IH]; cbn [fold_right In] in *; [contradiction|].
  destruct Hin as [->|Hin]; [lia | specialize (IH Hin); lia].
Qed.

Lemma Forall_exists_Forall2 {A B : Type} (P : A -> B -> Prop) (l : list A) :
  Forall (fun a => exists b, P a b) l -> exists bs, Forall2 P l bs.
Proof.
  induction 1 as [|a l (b & Hb) _ (bs & Hbs)].
  - now exists [].
  - exists (b :: bs). now constructor.
Qed.

Lemma for_range_ok {A : Type} (body : nat -> A -> result string)
  (l : list A) :
  (forall i v, In v l -> exists s, body i v = Ok s) ->
  forall i, exists s, for_range body i l = Ok s.
Proof.
  induction l as [|v l IH]; intros Hbody i; simpl.
  - now exists EmptyString.
  - destruct (Hbody i v (or_introl eq_refl)) as (s & ->).
    destruct (IH (fun j w Hw => Hbody j w (or_intror Hw)) (S i)) as (t & ->).
    simpl. now exists (s ++ t).
Qed.

Section Totality.
Variable quote_wide : string -> string.

(** A reply nested less than [2^61] deep below level [L] is rendered, in
    both modes: the indentation never overflows. *)
Lemma printStdReply_total (r : reply) :
  forall L : Z,
    0 <= L -> L + depth r <= 2 ^ 61 ->
    exists s, printStdReply quote_wide L r = Ok s.
Proof.
  induction r as [n|s|b| |msg|vs IH|repr] using reply_nested_ind;
    intros L HL Hd; try (eexists; reflexivity).
  cbn [printStdReply]. apply for_range_ok. intros i v Hin.
  pose proof (depth_element v vs Hin) as Hv.
  pose proof (depth_nonneg v) as Hv0.
  rewrite Forall_forall in IH.
  assert (HL1 : int_add L 1 = L + 1)
    by (apply int_add_small; unfold minInt, maxInt; lia).
  destruct (IH v Hin (L + 1)) as (s & Hs); [lia | lia |].
  rewrite HL1, Hs, indent_level by lia.
  destruct (negb (Z.of_nat i =? 0)); simpl; eexists; reflexivity.
Qed.

Lemma printRawReply_total (r : reply) :
  forall L : Z,
    0 <= L -> L + depth r <= 2 ^ 61 ->
    exists s, printRawReply L r = Ok s.
Proof.
  induction r as [n|s|b| |msg|vs IH|repr] using reply_nested_ind;
    intros L HL Hd; try (eexists; reflexivity).
  cbn [printRawReply]. apply for_range_ok. intros i v Hin.
  pose proof (depth_element v vs Hin) as Hv.
  pose proof (depth_nonneg v) as Hv0.
  rewrite Forall_forall in IH.
  assert (HL1 : int_add L 1 = L + 1)
    by (apply int_add_small; unfold minInt, maxInt; lia).
  destruct (IH v Hin (L + 1)) as (s & Hs); [lia | lia |].
  rewrite HL1, Hs, indent_level by lia.
  destruct (negb (Z.of_nat i =? 0)); simpl; eexists; reflexivity.
Qed.

Lemma printReply_total (r : reply) (mode : Z) :
  depth r <= 2 ^ 61 ->
  exists s, printReply quote_wide 0 r mode = Ok s.
Proof.
  intros Hd. unfold printReply.
  destruct (mode =? stdMode); [|destruct (mode =? rawMode)];
    first [apply printStdReply_total | apply printRawReply_total]; lia.
Qed.

End Totality.

(* ================================================================== *)
(** * The reply renderer: verified properties                          *)
(* ================================================================== *)

Section RenderFacts.
Variable quote_wide : string -> string.

Local Abbreviation printStd := (printStdReply quote_wide).

(** The loop of the standard printer over the elements from index [i] on
    draws the numbered list of their texts. *)
Lemma std_loop (L : Z) (n : nat) (vs : list reply) (ss : list string) :
  0 <= L < 2 ^ 61 ->
  Z.of_nat n <= maxInt ->
  Forall2 (fun v s => printStd (L + 1) v = Ok s) vs ss ->
  forall i : nat,
    (i + List.length vs = n)%nat ->
    for_range
      (fun i v =>
         indent <- (if negb (Z.of_nat i =? 0)
                    then Repeat (str space) (int_mul L 4)
                    else Ok EmptyString) ;;
         body <- printStd (int_add L 1) v ;;
         Ok (indent ++ fmt_pad4 (fmt_d (int_add (Z.of_nat i) 1) ++ ") ")
             ++ body ++
             (if negb (Z.of_nat i =? Z.of_nat n - 1)
              then str newline else EmptyString)))
      i vs
    = Ok (numbered_list L n i ss).
Proof.
  intros HL Hn HF.
  assert (HL1 : int_add L 1 = L + 1)
    by (apply int_add_small; unfold minInt, maxInt; lia).
  induction HF as [|v s vs ss Hv HF IH]; intros i Hi; [reflexivity|].
  simpl in Hi. cbn [for_range numbered_list].
  assert (Hi1 : int_add (Z.of_nat i) 1 = Z.of_nat i + 1)
    by (apply int_add_small; unfold minInt, maxInt in *; lia).
  rewrite (IH (S i)) by lia.
  rewrite HL1, Hv, Hi1.
  replace (Z.of_nat i =? Z.of_nat n - 1) with (S i =? n)%nat
    by (destruct (Nat.eqb_spec (S i) n), (Z.eqb_spec (Z.of_nat i)
          (Z.of_nat n - 1)); try reflexivity; lia).
  generalize (S i =? n)%nat as last. intros last. unfold label.
  destruct i as [|i].
  - cbn [Z.of_nat Z.eqb negb rbind Nat.eqb].
    destruct last; cbn [negb rbind]; f_equal;
      rewrite ?append_assoc; reflexivity.
  - replace (Z.of_nat (S i) =? 0) with false
      by (symmetry; apply Z.eqb_neq; lia).
    cbn [negb Nat.eqb]. rewrite (indent_level L HL).
    destruct last; cbn [negb rbind]; f_equal;
      rewrite ?append_assoc; reflexivity.
Qed.

(** The loop of the raw printer, likewise. *)
Lemma raw_loop (L : Z) (n : nat) (vs : list reply) (ss : list string) :
  0 <= L < 2 ^ 61 ->
  Forall2 (fun v s => printRawReply (L + 1) v = Ok s) vs ss ->
  forall i : nat,
    (i + List.length vs = n)%nat ->
    for_range
      (fun i v =>
         indent <- (if negb (Z.of_nat i =? 0)
                    then Repeat (str space) (int_mul L 4)
                    else Ok EmptyString) ;;
         body <- printRawReply (int_add L 1) v ;;
         Ok (indent ++ body ++
             (if negb (Z.of_nat i =? Z.of_nat n - 1)
              then str newline else EmptyString)))
      i vs
    = Ok (plain_list L n i ss).
Proof.
  intros HL HF.
  assert (HL1 : int_add L 1 = L + 1)
    by (apply int_add_small; unfold minInt, maxInt; lia).
  induction HF as [|v s vs ss Hv HF IH]; intros i Hi; [reflexivity|].
  simpl in Hi. cbn [for_range plain_list].
  rewrite (IH (S i)) by lia.
  rewrite HL1, Hv.
  replace (Z.of_nat i =? Z.of_nat n - 1) with (S i =? n)%nat
    by (destruct (Nat.eqb_spec (S i) n), (Z.eqb_spec (Z.of_nat i)
          (Z.of_nat n - 1)); try reflexivity; lia).
  generalize (S i =? n)%nat as last. intros last.
  destruct i as [|i].
  - cbn [Z.of_nat Z.eqb negb rbind Nat.eqb].
    destruct last; cbn [negb rbind]; f_equal;
      rewrite ?append_assoc; reflexivity.
  - replace (Z.of_nat (S i) =? 0) with false
      by (symmetry; apply Z.eqb_neq; lia).
    cbn [negb Nat.eqb]. rewrite (indent_level L HL).
    destruct last; cbn [negb rbind]; f_equal;
      rewrite ?append_assoc; reflexivity.
Qed.

(** C2 (as amended).  In standard mode, at every level: an integer renders
    as [(integer) N]; a byte slice renders quoted, through Go's [%q]; a text
    string renders verbatim, without quotes; nil renders as [(nil)]; an error
    renders as [(error) <message>].  For a byte slice whose bytes are all
    below [0x7f], quoted means: between two double quotes, with Go's
    escapes. *)
Theorem printStdReply_scalars :
  forall (level n : Z) (s b msg : string),
    printStd level (RInt n) = Ok ("(integer) " ++ fmt_d n)
    /\ printStd level (RBytes b) = Ok (Quote quote_wide b)
    /\ (if all_bytes (fun c => code c <? 127) b
        then Quote quote_wide b = str dquote ++ escape b ++ str dquote
        else Quote quote_wide b = quote_wide b)
    /\ printStd level (RString s) = Ok s
    /\ printStd level RNil = Ok "(nil)"
    /\ printStd level (RError msg) = Ok ("(error) " ++ msg).
Proof.
  intros level n s b msg. repeat split.
  unfold Quote. destruct (all_bytes _ b); reflexivity.
Qed.

(** C4.  In standard mode every sequence at a level [L] the program can
    reach (from 0, the sequence nested less than [2^61] deep below it) is
    drawn as a numbered list: its elements are rendered at level [L + 1],
    giving texts [ss], and the sequence gives [numbered_list L n 0 ss]: each
    text after its label [1) ], [2) ], ..., each element but the first after
    [4 * L] spaces, a newline after each element but the last. *)
Theorem printStdReply_sequence :
  forall (L : Z) (vs : list reply),
    0 <= L ->
    L + depth (RArray vs) <= 2 ^ 61 ->
    Z.of_nat (List.length vs) <= maxInt ->
    exists ss : list string,
      Forall2 (fun v s => printStd (L + 1) v = Ok s) vs ss
      /\ printStd L (RArray vs) = Ok (numbered_list L (List.length vs) 0 ss).
Proof.
  intros L vs HL Hd Hn.
  pose proof (depth_nonneg (RArray vs)) as H0.
  assert (H1 : 1 <= depth (RArray vs)).
  { cbn [depth].
    assert (0 <= fold_right (fun v d => Z.max (depth v) d) 0 vs); [|lia].
    clear. induction vs as [|v vs IH]; cbn [fold_right]; lia. }
  destruct (Forall_exists_Forall2
              (fun v s => printStd (L + 1) v = Ok s) vs) as (ss & HF).
  { apply Forall_forall. intros v Hin.
    pose proof (depth_element v vs Hin).
    apply printStdReply_total; lia. }
  exists ss. split; [exact HF|]. cbn [printStdReply].
  apply (std_loop L (List.length vs) vs ss); [lia | exact Hn | exact HF |].
  reflexivity.
Qed.

(** C5.  In raw mode, at every level: an integer renders as its bare digits,
    a string or byte slice verbatim, nil as nothing, an error as its message
    and a newline; and every sequence at a level [L] the program can reach
    has its elements rendered at level [L + 1], giving texts [ss], and gives
    [plain_list L n 0 ss]: each element but the first after [4 * L] spaces, a
    newline after each element but the last. *)
Theorem printRawReply_spec :
  forall (L n : Z) (s b msg : string) (vs : list reply),
    printRawReply L (RInt n) = Ok (fmt_d n)
    /\ printRawReply L (RString s) = Ok s
    /\ printRawReply L (RBytes b) = Ok b
    /\ printRawReply L RNil = Ok EmptyString
    /\ printRawReply L (RError msg) = Ok (msg ++ nl)
    /\ (0 <= L ->
        L + depth (RArray vs) <= 2 ^ 61 ->
        exists ss : list string,
          Forall2 (fun v s => printRawReply (L + 1) v = Ok s) vs ss
          /\ printRawReply L (RArray vs)
             = Ok (plain_list L (List.length vs) 0 ss)).
Proof.
  intros L n s b msg vs. repeat split.
  intros HL Hd.
  assert (H1 : 1 <= depth (RArray vs)).
  { cbn [depth].
    assert (0 <= fold_right (fun v d => Z.max (depth v) d) 0 vs); [|lia].
    clear. induction vs as [|v vs IH]; cbn [fold_right]; lia. }
  destruct (Forall_exists_Forall2
              (fun v s => printRawReply (L + 1) v = Ok s) vs) as (ss & HF).
  { apply Forall_forall. intros v Hin.
    pose proof (depth_element v vs Hin).
    apply printRawReply_total; lia. }
  exists ss. split; [exact HF|]. cbn [printRawReply].
  apply (raw_loop L (List.length vs) vs ss); [lia | exact HF |].
  reflexivity.
Qed.

End RenderFacts.

(* ================================================================== *)
(** * The command tokenizer: verified properties                       *)
(* ================================================================== *)

Lemma shorter_tail (c : ascii) (s : string) : shorter s (String c s) = true.
Proof. unfold shorter. simpl. apply Nat.ltb_lt. lia. Qed.

(** [.*?] followed by the quote [q] stops at the first [q], and never
    crosses a newline. *)
Lemma lazy_star_close (q : ascii) :
  forall (n : nat) (s : string),
    (String.length s <= n)%nat ->
    lazy_star (run AnyChar) (fun s2 => run (Lit q) s2 Some) n s
    = close_quote q s.
Proof.
  induction n as [|n IH]; intros [|c r] Hlen; simpl in Hlen |- *;
    try reflexivity; try lia.
  destruct (Ascii.eqb c q); [reflexivity|].
  destruct (Ascii.eqb c newline); [reflexivity|].
  rewrite shorter_tail. apply IH. lia.
Qed.

(** [\S+] takes the whole run of characters that are not white space. *)
Lemma greedy_plus_skip :
  forall (n : nat) (s : string),
    (String.length s <= n)%nat ->
    greedy_plus (run NotSpace) Some n s
    = match s with
      | EmptyString => None
      | String c r => if is_space c then None else Some (skip_run r)
      end.
Proof.
  induction n as [|n IH]; intros [|c r] Hlen; simpl in Hlen |- *;
    try reflexivity; try lia.
  destruct (is_space c); [reflexivity|].
  rewrite shorter_tail, IH by lia.
  destruct r as [|c' r']; [reflexivity|]. simpl.
  destruct (is_space c'); reflexivity.
Qed.

(** The matcher of the program's expression is [scan]. *)
Lemma run_quoted (q : ascii) (s : string) :
  run (Cat (Lit q) (Cat (LazyStar AnyChar) (Lit q))) s Some
  = match s with
    | EmptyString => None
    | String c s' => if Ascii.eqb c q then close_quote q s' else None
    end.
Proof.
  destruct s as [|c s']; [reflexivity|].
  change (run (Cat (Lit q) (Cat (LazyStar AnyChar) (Lit q))) (String c s')
              Some)
    with (if Ascii.eqb c q
          then lazy_star (run AnyChar) (fun s2 => run (Lit q) s2 Some)
                         (String.length s') s'
          else None).
  now rewrite lazy_star_close.
Qed.

Lemma run_plus (s : string) :
  run (Plus NotSpace) s Some
  = match s with
    | EmptyString => None
    | String c r => if is_space c then None else Some (skip_run r)
    end.
Proof.
  change (run (Plus NotSpace) s Some)
    with (greedy_plus (run NotSpace) Some (String.length s) s).
  now rewrite greedy_plus_skip.
Qed.

Lemma run_reg (s : string) : run reg s Some = scan s.
Proof.
  unfold reg.
  change (run (Alt ?a (Alt ?b ?c)) s Some)
    with (match run a s Some with
          | Some rest => Some rest
          | None =>
              match run b s Some with
              | Some rest => Some rest
              | None => run c s Some
              end
          end).
  rewrite !run_quoted, run_plus.
  destruct s as [|c s']; reflexivity.
Qed.

Lemma close_quote_shape (q : ascii) :
  forall s rest : string,
    close_quote q s = Some rest ->
    exists m : string, s = m ++ String q rest /\ inner q m = true.
Proof.
  induction s as [|c r IH]; intros rest H; simpl in H; [discriminate|].
  destruct (Ascii.eqb_spec c q) as [->|Hq].
  - injection H as <-. exists EmptyString. split; reflexivity.
  - destruct (Ascii.eqb c newline) eqn:En; [discriminate|].
    destruct (IH rest H) as (m & -> & Hm).
    exists (String c m). split; [reflexivity|].
    unfold inner in *. simpl. rewrite En, Hm.
    destruct (Ascii.eqb_spec c q); [contradiction | reflexivity].
Qed.

(** Conversely [close_quote] finds the first closing quote. *)
Lemma close_quote_app (q : ascii) (m rest : string) :
  inner q m = true -> close_quote q (m ++ String q rest) = Some rest.
Proof.
  unfold inner. induction m as [|c m IH]; intros Hm; simpl in *.
  - now rewrite Ascii.eqb_refl.
  - apply andb_true_iff in Hm as [Hc Hm].
    apply andb_true_iff in Hc as [Hq Hn].
    apply negb_true_iff in Hq, Hn. rewrite Hq, Hn. now apply IH.
Qed.

Lemma close_quote_none (q : ascii) (s : string) :
  close_quote q s = None <-> ~ closes q s.
Proof.
  split.
  - intros H (m & r & -> & Hm). rewrite close_quote_app in H by exact Hm.
    discriminate.
  - intros H. destruct (close_quote q s) as [r|] eqn:E; [|reflexivity].
    destruct (close_quote_shape q s r E) as (m & Hs & Hm).
    destruct H. now exists m, r.
Qed.

Lemma skip_run_shape :
  forall s : string,
    exists m : string,
      s = m ++ skip_run s
      /\ all_bytes (fun c => negb (is_space c)) m = true
      /\ (skip_run s = EmptyString
          \/ exists c r, skip_run s = String c r /\ is_space c = true).
Proof.
  induction s as [|c r IH]; simpl.
  - exists EmptyString. repeat split. now left.
  - destruct (is_space c) eqn:Ec.
    + exists EmptyString. repeat split. right. now exists c, r.
    + destruct IH as (m & Hm & Hall & Hrest).
      exists (String c m). simpl. rewrite Ec, Hall.
      repeat split; [now rewrite <- Hm | exact Hrest].
Qed.

Lemma space_not_quote (c : ascii) :
  is_space c = true ->
  Ascii.eqb c squote = false /\ Ascii.eqb c dquote = false.
Proof.
  intros Hc. split.
  - destruct (Ascii.eqb_spec c squote) as [->|]; [discriminate | reflexivity].
  - destruct (Ascii.eqb_spec c dquote) as [->|]; [discriminate | reflexivity].
Qed.

Lemma scan_space (c : ascii) (s : string) :
  is_space c = true -> scan (String c s) = None.
Proof.
  intros Hc. destruct (space_not_quote c Hc) as [Hs Hd].
  unfold scan. now rewrite Hs, Hd, Hc.
Qed.

(** On white space there is nothing to find, whatever the fuel. *)
Lemma find_all_blank :
  forall (fuel : nat) (s : string), blank s = true -> find_all fuel reg s = [].
Proof.
  induction fuel as [|fuel IH]; intros [|c s] Hb; try reflexivity.
  unfold blank in Hb. simpl in Hb. apply andb_true_iff in Hb as [Hc Hs].
  cbn [find_all]. rewrite run_reg, (scan_space c s Hc). now apply IH.
Qed.

Lemma skip_run_app (w rest : string) :
  all_bytes (fun c => negb (is_space c)) w = true ->
  (rest = EmptyString \/ exists c r, rest = String c r /\ is_space c = true) ->
  skip_run (w ++ rest) = rest.
Proof.
  intros Hw Hrest. induction w as [|c w IH]; simpl in *.
  - destruct Hrest as [->|(c & r & -> & Hc)]; [reflexivity|].
    simpl. now rewrite Hc.
  - apply andb_true_iff in Hw as [Hc Hw].
    apply negb_true_iff in Hc. rewrite Hc. now apply IH.
Qed.

(** What [scan] finds is the token in front of what it leaves. *)
Lemma scan_some (s rest : string) :
  scan s = Some rest ->
  exists t : string, s = t ++ rest /\ token_at t rest /\ t <> EmptyString.
Proof.
  destruct s as [|c s']; [discriminate|]. unfold scan.
  destruct (Ascii.eqb_spec c squote) as [->|Hs].
  - destruct (close_quote squote s') as [r1|] eqn:E1.
    + intros H. injection H as <-.
      destruct (close_quote_shape _ _ _ E1) as (m & -> & Hm).
      exists (String squote (m ++ str squote)). split; [|split].
      * simpl. now rewrite append_assoc.
      * apply (quoted_token squote); [reflexivity | now exists m].
      * discriminate.
    + change (Ascii.eqb squote dquote) with false.
      change (is_space squote) with false.
      intros H. injection H as <-.
      destruct (skip_run_shape s') as (m & Hm & Hall & Hrest).
      exists (String squote m). split; [|split].
      * simpl. now rewrite <- Hm.
      * apply run_token.
        -- repeat split; [discriminate | exact Hall | exact Hrest].
        -- intros _. rewrite <- Hm. now apply close_quote_none.
      * discriminate.
  - destruct (Ascii.eqb_spec c dquote) as [->|Hd].
    + destruct (close_quote dquote s') as [r2|] eqn:E2.
      * intros H. injection H as <-.
        destruct (close_quote_shape _ _ _ E2) as (m & -> & Hm).
        exists (String dquote (m ++ str dquote)). split; [|split].
        -- simpl. now rewrite append_assoc.
        -- apply (quoted_token dquote); [reflexivity | now exists m].
        -- discriminate.
      * change (is_space dquote) with false.
        intros H. injection H as <-.
        destruct (skip_run_shape s') as (m & Hm & Hall & Hrest).
        exists (String dquote m). split; [|split].
        -- simpl. now rewrite <- Hm.
        -- apply run_token.
           ++ repeat split; [discriminate | exact Hall | exact Hrest].
           ++ intros _. rewrite <- Hm. now apply close_quote_none.
        -- discriminate.
    + destruct (is_space c) eqn:Ec; [discriminate|].
      intros H. injection H as <-.
      destruct (skip_run_shape s') as (m & Hm & Hall & Hrest).
      exists (String c m). split; [|split].
      * simpl. now rewrite <- Hm.
      * apply run_token.
        -- repeat split; [discriminate | | exact Hrest].
           simpl. now rewrite Ec.
        -- unfold is_quote.
           destruct (Ascii.eqb_spec c squote); [contradiction|].
           destruct (Ascii.eqb_spec c dquote); [contradiction|].
           discriminate.
      * discriminate.
Qed.

(** Where [scan] finds nothing the line starts with white space. *)
Lemma scan_none (c : ascii) (s : string) :
  scan (String c s) = None -> is_space c = true.
Proof.
  unfold scan.
  destruct (if Ascii.eqb c squote then close_quote squote s else None);
    [discriminate|].
  destruct (if Ascii.eqb c dquote then close_quote dquote s else None);
    [discriminate|].
  destruct (is_space c); [reflexivity | discriminate].
Qed.

Lemma substring_prefix (t rest : string) :
  substring 0 (String.length t) (t ++ rest) = t.
Proof.
  induction t as [|c t IH]; simpl.
  - destruct rest; reflexivity.
  - now rewrite IH.
Qed.

Lemma tokens_of_space (c : ascii) (s : string) (ts : list string) :
  is_space c = true -> tokens_of s ts -> tokens_of (String c s) ts.
Proof.
  intros Hc H. destruct H as [ws Hws | ws t rest ts Hws Ht Hrest].
  - apply tokens_done. unfold blank in *. simpl. now rewrite Hc, Hws.
  - change (String c (ws ++ t ++ rest)) with (String c ws ++ t ++ rest).
    apply tokens_next; try assumption.
    unfold blank in *. simpl. now rewrite Hc, Hws.
Qed.

(** With fuel for every character of the line, [find_all] delivers the
    tokens of the whole line. *)
Lemma find_all_tokens :
  forall (fuel : nat) (s : string),
    (String.length s <= fuel)%nat -> tokens_of s (find_all fuel reg s).
Proof.
  induction fuel as [|fuel IH]; intros [|c s'] Hlen; simpl in Hlen;
    try (apply tokens_done; reflexivity); try lia.
  cbn [find_all]. rewrite run_reg.
  destruct (scan (String c s')) as [rest|] eqn:E.
  - destruct (scan_some _ _ E) as (t & Hs & Htok & Hne).
    assert (Hl : String.length (String c s')
                 = (String.length t + String.length rest)%nat)
      by (rewrite Hs; apply length_append).
    assert (Ht : (0 < String.length t)%nat)
      by (destruct t; [contradiction | simpl; lia]).
    replace (shorter rest (String c s')) with true
      by (symmetry; unfold shorter; apply Nat.ltb_lt; lia).
    replace (String.length (String c s') - String.length rest)%nat
      with (String.length t) by lia.
    rewrite Hs at 1 2. rewrite substring_prefix.
    change (tokens_of (EmptyString ++ t ++ rest) (t :: find_all fuel reg rest)).
    apply tokens_next; [reflexivity | exact Htok |].
    apply IH. simpl in Hl. lia.
  - apply tokens_of_space; [exact (scan_none _ _ E) | apply IH; lia].
Qed.

(** More fuel than the line has characters changes nothing. *)
Lemma find_all_fuel :
  forall (fuel1 fuel2 : nat) (s : string),
    (String.length s <= fuel1)%nat -> (String.length s <= fuel2)%nat ->
    find_all fuel1 reg s = find_all fuel2 reg s.
Proof.
  induction fuel1 as [|fuel1 IH]; intros fuel2 [|c s'] H1 H2;
    simpl in H1, H2; try lia; try (destruct fuel2; reflexivity).
  destruct fuel2 as [|fuel2]; [lia|]. cbn [find_all].
  destruct (run reg (String c s') Some) as [rest|]; [|apply IH; lia].
  destruct (shorter rest (String c s')) eqn:Es; [|apply IH; lia].
  unfold shorter in Es. apply Nat.ltb_lt in Es. simpl in Es.
  f_equal. apply IH; lia.
Qed.

(** The token at the start of a text is what [scan] matches there. *)
Lemma token_at_scan (t rest : string) :
  token_at t rest -> scan (t ++ rest) = Some rest /\ t <> EmptyString.
Proof.
  intros [q t' rest' Hq (m & -> & Hm) | c t' rest' (Hne & Hall & Hrest) Hcl].
  - split; [|discriminate].
    cbn [append scan]. rewrite append_assoc. cbn [append str].
    unfold is_quote in Hq. apply orb_true_iff in Hq as [Hq|Hq];
      apply Ascii.eqb_eq in Hq; subst q.
    + rewrite Ascii.eqb_refl. now rewrite close_quote_app.
    + change (Ascii.eqb dquote squote) with false. cbn iota.
      rewrite Ascii.eqb_refl. now rewrite close_quote_app.
  - split; [|discriminate].
    simpl in Hall. apply andb_true_iff in Hall as [Hc Hall].
    apply negb_true_iff in Hc.
    cbn [append scan]. rewrite Hc, (skip_run_app t' rest' Hall Hrest).
    destruct (Ascii.eqb_spec c squote) as [->|Hs].
    + assert (E : close_quote squote (t' ++ rest') = None)
        by (apply close_quote_none, Hcl; reflexivity).
      rewrite E. reflexivity.
    + destruct (Ascii.eqb_spec c dquote) as [->|Hd]; [|reflexivity].
      assert (E : close_quote dquote (t' ++ rest') = None)
        by (apply close_quote_none, Hcl; reflexivity).
      rewrite E. reflexivity.
Qed.

Lemma tokenize_blank_app (ws s : string) :
  blank ws = true -> tokenize (ws ++ s) = tokenize s.
Proof.
  unfold blank, tokenize, FindAllString.
  induction ws as [|c ws IH]; intros Hb; [reflexivity|].
  simpl in Hb. apply andb_true_iff in Hb as [Hc Hb].
  cbn [append String.length find_all].
  rewrite run_reg, (scan_space c (ws ++ s) Hc). now apply IH.
Qed.

Lemma tokenize_token_app (t rest : string) :
  token_at t rest -> tokenize (t ++ rest) = t :: tokenize rest.
Proof.
  intros Ht. destruct (token_at_scan t rest Ht) as [Hscan Hne].
  destruct t as [|c t]; [contradiction|].
  assert (Hlen : String.length (String c t ++ rest)
                 = (String.length (String c t) + String.length rest)%nat)
    by apply length_append.
  unfold tokenize, FindAllString. rewrite Hlen.
  cbn [String.length Nat.add find_all]. rewrite run_reg, Hscan.
  replace (shorter rest (String c t ++ rest)) with true
    by (symmetry; unfold shorter; apply Nat.ltb_lt; rewrite Hlen; simpl; lia).
  replace (String.length (String c t ++ rest) - String.length rest)%nat
    with (String.length (String c t)) by lia.
  rewrite substring_prefix. cbn [append]. f_equal.
  apply find_all_fuel; lia.
Qed.

(** A line has one list of tokens: the one the tokenizer computes. *)
Lemma tokens_of_unique (line : string) (ts : list string) :
  tokens_of line ts -> tokenize line = ts.
Proof.
  induction 1 as [ws Hws | ws t rest ts Hws Ht Hrest IH].
  - unfold tokenize, FindAllString. now apply find_all_blank.
  - rewrite tokenize_blank_app by exact Hws.
    rewrite tokenize_token_app by exact Ht. now rewrite IH.
Qed.

(** C6 (as amended).  The tokens of a line are determined by this layout,
    and the tokenizer computes them: the line is white space and tokens in
    turn; a token that starts with a quote which closes further on the line,
    with no newline in between, is the quoted span up to the first closing
    quote, quotes included; any other token is a run of characters that are
    not white space, up to the next white space or the end of the line.  A
    run starts at the start of the line, after white space or right after
    the previous token; and [SET key "hello world"] gives exactly three
    tokens, the third of them ["hello world"] with its quotes. *)
Theorem tokenize_tokens :
  (forall (line : string) (ts : list string),
      tokens_of line ts <-> tokenize line = ts)
  /\ tokenize set_key_hello_world
     = ["SET"; "key"; str dquote ++ "hello world" ++ str dquote].
Proof.
  split; [|reflexivity].
  intros line ts. split; [apply tokens_of_unique|].
  intros <-. apply find_all_tokens. apply Nat.le_refl.
Qed.

(** C6, counterexample.  The line ['a'b] gives the tokens ['a'] and [b], and
    [b] is neither a quoted span nor a maximal run of characters of the line
    that are not white space: the quote before it is no white space. *)
Lemma run_after_quote_not_maximal :
  tokenize "'a'b" = ["'a'"; "b"]
  /\ ~ (quoted squote "b" \/ quoted dquote "b" \/ maximal_run_of "'a'b" "b").
Proof.
  split; [reflexivity|].
  intros [(m & E & _)|[(m & E & _)|(pre & post & E & _ & _ & Hl & _)]];
    try discriminate.
  destruct pre as [|c1 [|c2 [|c3 [|c4 pre]]]]; cbn [append] in E;
    try discriminate.
  - destruct Hl as [Hl|(p & c & Hp & Hc)]; [discriminate|].
    inversion E; subst c1 c2 c3.
    destruct p as [|p1 [|p2 [|p3 p]]]; cbn [append str] in Hp;
      try discriminate.
    + inversion Hp; subst c. discriminate.
    + destruct p; discriminate.
  - inversion E. destruct pre; discriminate.
Qed.

(* ================================================================== *)
(** * The client: verified properties                                  *)
(* ================================================================== *)

(** On ASCII text [strings.ToLower] is the byte-wise lower-casing, whatever
    the Unicode tables: [AUTH], [Auth] and [auth] all give [auth]. *)
Lemma ToLower_ascii (unicode_lower : string -> string) (s : string) :
  all_bytes is_ascii s = true ->
  ToLower unicode_lower s = map_bytes lower_byte s.
Proof. intros H. unfold ToLower. now rewrite H. Qed.

Lemma digit_range (c : ascii) (d : Z) : digit c = Some d -> 0 <= d <= 9.
Proof.
  unfold digit.
  destruct (48 <=? code c) eqn:E1; [|discriminate].
  destruct (code c <=? 57) eqn:E2; [|discriminate].
  intros H. injection H as <-.
  apply Z.leb_le in E1, E2. lia.
Qed.

Lemma decimal_value_ge :
  forall (s : string) (acc v : Z),
    0 <= acc -> decimal_value s acc = Some v -> acc <= v.
Proof.
  induction s as [|c s IH]; intros acc v Hacc H; cbn [decimal_value] in H.
  - injection H as <-. lia.
  - destruct (digit c) as [d|] eqn:Ed; [|discriminate].
    pose proof (digit_range c d Ed).
    specialize (IH (10 * acc + d) v ltac:(lia) H). lia.
Qed.

(** The loop of [ParseUint] computes the number the digits denote, and
    reports the numbers that do not fit 64 bits. *)
Lemma ParseUint_loop_spec :
  forall (s : string) (n : Z),
    0 <= n <= maxUint64 ->
    match decimal_value s n with
    | Some v =>
        ParseUint_loop s n
        = if v <=? maxUint64 then (v, None) else (maxUint64, Some ErrRange)
    | None =>
        ParseUint_loop s n = (0, Some ErrSyntax)
        \/ ParseUint_loop s n = (maxUint64, Some ErrRange)
    end.
Proof.
  induction s as [|c s IH]; intros n Hn; cbn [decimal_value ParseUint_loop].
  - destruct (Z.leb_spec n maxUint64); [reflexivity | lia].
  - destruct (digit c) as [d|] eqn:Ed; [|now left].
    pose proof (digit_range c d Ed) as Hd.
    assert (Hover : maxUint64 < 10 * n + d ->
                    match decimal_value s (10 * n + d) with
                    | Some v =>
                        (maxUint64, Some ErrRange)
                        = if v <=? maxUint64 then (v, None)
                          else (maxUint64, Some ErrRange)
                    | None =>
                        (maxUint64, Some ErrRange) = (0, Some ErrSyntax)
                        \/ (maxUint64, Some ErrRange)
                           = (maxUint64, Some ErrRange)
                    end).
    { intros Hbig.
      destruct (decimal_value s (10 * n + d)) as [v|] eqn:Ev; [|now right].
      pose proof (decimal_value_ge s (10 * n + d) v ltac:(lia) Ev).
      destruct (Z.leb_spec v maxUint64); [lia | reflexivity]. }
    unfold maxUint64, uint64_wrap in *.
    destruct (Z.geb_spec n ((2 ^ 64 - 1) / 10 + 1)) as [Hc|Hc].
    + apply Hover.
      change ((2 ^ 64 - 1) / 10 + 1) with 1844674407370955162 in Hc. lia.
    + change ((2 ^ 64 - 1) / 10 + 1) with 1844674407370955162 in Hc.
      rewrite (Z.mod_small (n * 10)) by lia.
      destruct (Z.ltb_spec ((n * 10 + d) mod 2 ^ 64) (n * 10)) as [Hw|Hw];
        cbn [orb].
      * apply Hover.
        destruct (Z_lt_le_dec (n * 10 + d) (2 ^ 64)) as [Hs|Hs]; [|lia].
        rewrite Z.mod_small in Hw by lia. lia.
      * assert (Hs : n * 10 + d < 2 ^ 64).
        { destruct (Z_lt_le_dec (n * 10 + d) (2 ^ 64)) as [Hs|Hs]; [lia|].
          exfalso.
          assert ((n * 10 + d) mod 2 ^ 64 = n * 10 + d - 2 ^ 64).
          { symmetry. apply (Z.mod_unique_pos _ _ 1); lia. }
          lia. }
        rewrite Z.mod_small in * by lia.
        destruct (Z.gtb_spec (n * 10 + d) (2 ^ 64 - 1)); [lia|].
        replace (n * 10 + d) with (10 * n + d) by lia.
        apply IH. lia.
Qed.

(** [strconv.Atoi] on a numeral: the integer it denotes when that fits an
    [int], the nearest [int] and a range error otherwise. *)
Lemma Atoi_numeral (s : string) (v : Z) :
  numeral_value s = Some v ->
  Atoi s = if (minInt <=? v) && (v <=? maxInt) then (v, None)
           else (if v <? 0 then minInt else maxInt, Some ErrRange).
Proof.
  unfold Atoi, ParseInt, numeral_value.
  destruct s as [|c0 s']; [discriminate|].
  set (neg := Ascii.eqb c0 (byte_of 45)).
  set (digits := if Ascii.eqb c0 (byte_of 43) || neg then s' else _).
  destruct digits as [|c1 digits'] eqn:Edig; [discriminate|].
  rewrite <- Edig. intros H.
  assert (HP : ParseUint digits = ParseUint_loop digits 0)
    by (rewrite Edig; reflexivity).
  rewrite HP. clear HP.
  pose proof (ParseUint_loop_spec digits 0 ltac:(unfold maxUint64; lia)) as HL.
  destruct (decimal_value digits 0) as [un|] eqn:Eun; [|discriminate].
  pose proof (decimal_value_ge digits 0 un ltac:(lia) Eun) as Hun.
  cbn [option_map] in H. injection H as <-.
  rewrite HL. clear HL.
  unfold maxUint64, minInt, maxInt, int_wrap in *.
  destruct (Z.leb_spec un (2 ^ 64 - 1)) as [Hfit|Hfit].
  - destruct neg; cbn [negb andb].
    + destruct (Z.gtb_spec un (2 ^ 63)) as [Hg|Hg].
      * destruct (Z.leb_spec (- 2 ^ 63) (- un)); [lia|]. cbn [andb].
        destruct (Z.ltb_spec (- un) 0); [reflexivity | lia].
      * destruct (Z.leb_spec (- 2 ^ 63) (- un)); [|lia].
        destruct (Z.leb_spec (- un) (2 ^ 63 - 1)); [|lia]. cbn [andb].
        f_equal. rewrite Z.mod_small by lia. lia.
    + destruct (Z.geb_spec un (2 ^ 63)) as [Hg|Hg].
      * destruct (Z.leb_spec (- 2 ^ 63) un); [|lia].
        destruct (Z.leb_spec un (2 ^ 63 - 1)); [lia|]. cbn [andb].
        destruct (Z.ltb_spec un 0); [lia | reflexivity].
      * destruct (Z.leb_spec (- 2 ^ 63) un); [|lia].
        destruct (Z.leb_spec un (2 ^ 63 - 1)); [|lia]. cbn [andb].
        f_equal. rewrite Z.mod_small by lia. lia.
  - destruct neg; cbn [negb andb].
    + change (2 ^ 64 - 1 >? 2 ^ 63) with true. cbn iota.
      destruct (Z.leb_spec (- 2 ^ 63) (- un)); [lia|]. cbn [andb].
      destruct (Z.ltb_spec (- un) 0); [reflexivity | lia].
    + change (2 ^ 64 - 1 >=? 2 ^ 63) with true. cbn iota.
      destruct (Z.leb_spec (- 2 ^ 63) un); [|lia].
      destruct (Z.leb_spec un (2 ^ 63 - 1)); [lia|]. cbn [andb].
      destruct (Z.ltb_spec un 0); [lia | reflexivity].
Qed.

(** On a text that is not a numeral [strconv.Atoi] reports an error. *)
Lemma Atoi_not_numeral (s : string) :
  numeral_value s = None -> snd (Atoi s) <> None.
Proof.
  unfold Atoi, ParseInt, numeral_value.
  destruct s as [|c0 s']; [discriminate|].
  set (neg := Ascii.eqb c0 (byte_of 45)).
  set (digits := if Ascii.eqb c0 (byte_of 43) || neg then s' else _).
  destruct digits as [|c1 digits'] eqn:Edig; [discriminate|].
  rewrite <- Edig. intros H.
  assert (HP : ParseUint digits = ParseUint_loop digits 0)
    by (rewrite Edig; reflexivity).
  rewrite HP. clear HP.
  pose proof (ParseUint_loop_spec digits 0 ltac:(unfold maxUint64; lia)) as HL.
  destruct (decimal_value digits 0) as [un|]; [discriminate|].
  destruct HL as [-> | ->]; [discriminate|].
  unfold maxUint64.
  destruct neg; cbn [negb andb].
  - change (2 ^ 64 - 1 >? 2 ^ 63) with true. discriminate.
  - change (2 ^ 64 - 1 >=? 2 ^ 63) with true. discriminate.
Qed.

(** What [strconv.Atoi] returns with an error: zero when the text is not a
    numeral, the largest or the smallest [int] when the numeral is out of
    range. *)
Lemma Atoi_error (s : string) (v : Z) (e : NumError) :
  Atoi s = (v, Some e) ->
  (e = ErrSyntax /\ v = 0) \/ (e = ErrRange /\ (v = maxInt \/ v = minInt)).
Proof.
  unfold Atoi, ParseInt. destruct s as [|c0 s']; intros H.
  - inversion H. now left.
  - destruct (ParseUint _) as [un [[|]|]];
      repeat match type of H with
             | context [if ?b then _ else _] => destruct b
             end;
      inversion H; subst; unfold maxInt, minInt; auto.
Qed.

Section CliFacts.
Variable unicode_lower : string -> string.
Variable quote_wide : string -> string.
Variable redis_Ping : list call -> option string.
Variable redis_Do : list call -> list string -> reply * option string.
Variable liner_AppendHistory : list string -> string -> list string.

Local Abbreviation lower := (ToLower unicode_lower).
Local Abbreviation connect := (cliConnect redis_Ping).
Local Abbreviation send :=
  (cliSendCommand unicode_lower quote_wide redis_Ping redis_Do).
Local Abbreviation append_history :=
  (appendHistory unicode_lower liner_AppendHistory).
Local Abbreviation switch_mode := (switchMode unicode_lower).

Lemma lower_select (c0 : string) :
  lower c0 = "select" -> (lower (lower c0) =? "select")%string = true.
Proof. intros ->. reflexivity. Qed.

(** Whatever the tokens after the first, the one request of
    [cliSendCommand] carries the lower-cased first token and one empty
    argument. *)
Lemma cliSendCommand_request (c0 : string) (rest : list string)
  (st st1 : state) :
  connect st = Return tt st1 ->
  calls (final_state (send (c0 :: rest) st))
  = (calls st1 ++ [CallDo [lower c0; EmptyString]])%list.
Proof.
  intros Hc. unfold cliSendCommand. rewrite Hc. cbn [bind].
  destruct (redis_Do _ _) as [r [e|]]; cbn [is_nil andb bind].
  - reflexivity.
  - destruct (lower (lower c0) =? "select")%string.
    + destruct rest as [|a rest]; cbn; [reflexivity|].
      destruct (lower c0 =? "info")%string; cbn; [reflexivity|].
      destruct (printReply _ _ _ _); reflexivity.
    + cbn [bind]. destruct (lower c0 =? "info")%string; cbn; [reflexivity|].
      destruct (printReply _ _ _ _); reflexivity.
Qed.

(** When the ping of a fresh client fails the process exits with code 1
    and no request has been made. *)
Lemma cliSendCommand_ping_failure (cmds : list string) (st : state)
  (e : string) :
  client st = false ->
  redis_Ping (calls st) = Some e ->
  send cmds st
  = Exit 1 (print (e ++ nl) (log CallPing (set_client true st))).
Proof.
  intros Hcl Hping. unfold cliSendCommand, cliConnect, sendPing.
  rewrite Hcl. cbn [negb calls set_client]. rewrite Hping. reflexivity.
Qed.

(** Outside the case of a [select] without a second token, the code
    [cliSendCommand] returns tells whether the store reported an error. *)
Lemma cliSendCommand_code (c0 : string) (rest : list string)
  (st st1 : state) (r : reply) (err : option string) :
  connect st = Return tt st1 ->
  redis_Do (calls st1) [lower c0; EmptyString] = (r, err) ->
  depth r <= 2 ^ 61 ->
  (lower (lower c0) = "select" -> rest <> []) ->
  exists st', send (c0 :: rest) st
              = Return (if is_nil err then 0 else -1) st'.
Proof.
  intros Hc Hdo Hd Hsel. unfold cliSendCommand.
  rewrite Hc. cbn [bind]. rewrite Hdo.
  destruct err as [e|]; cbn [is_nil andb bind]; [eexists; reflexivity|].
  destruct (printReply_total quote_wide r (mode st1) Hd) as (s & Hs).
  destruct (String.eqb_spec (lower (lower c0)) "select") as [E|E].
  - destruct rest as [|a rest]; [now destruct (Hsel E)|]. cbn.
    destruct (lower c0 =? "info")%string; cbn; [eexists; reflexivity|].
    rewrite Hs. cbn. eexists; reflexivity.
  - cbn [bind]. destruct (lower c0 =? "info")%string; cbn;
      [eexists; reflexivity|].
    rewrite Hs. cbn. eexists; reflexivity.
Qed.

(** C3.  An entry of exactly two tokens whose first token lower-cases to
    [auth] goes to the history with its second token replaced by [******];
    an entry of exactly four tokens whose first token lower-cases to
    [connect], with its fourth token so replaced; the entry stored does not
    depend on the token masked, and [auth mypassword] is stored as
    [auth ******]. *)
Theorem appendHistory_masks :
  forall (a b c d : string) (st : state),
    (lower a = "auth" ->
     append_history [a; b] st
     = set_history (liner_AppendHistory (history st) (a ++ " " ++ mask)) st)
    /\ (lower a = "connect" ->
        append_history [a; b; c; d] st
        = set_history
            (liner_AppendHistory (history st)
               (a ++ " " ++ b ++ " " ++ c ++ " " ++ mask)) st)
    /\ append_history ["auth"; "mypassword"] st
       = set_history (liner_AppendHistory (history st) "auth ******") st.
Proof.
  intros a b c d st. unfold appendHistory. cbn [List.length nth Nat.eqb andb].
  repeat split.
  - intros ->. reflexivity.
  - intros ->. reflexivity.
Qed.

(** C7.  When the arguments of [mode] are one token that lower-cases to
    [raw] (to [std]) the mode becomes the raw (standard) mode and nothing is
    printed; for every other argument list the usage message is printed and
    nothing else changes, the mode in particular. *)
Theorem switchMode_spec :
  forall (args : list string) (st : state),
    (forall a, args = [a] -> lower a = "raw" ->
               switch_mode args st = set_mode rawMode st)
    /\ (forall a, args = [a] -> lower a = "std" ->
                  switch_mode args st = set_mode stdMode st)
    /\ ((forall a, args = [a] -> lower a <> "raw" /\ lower a <> "std") ->
        switch_mode args st = print (usage ++ nl) st
        /\ mode (switch_mode args st) = mode st).
Proof.
  intros args st. repeat split.
  - intros a -> H. unfold switchMode. rewrite H. reflexivity.
  - intros a -> H. unfold switchMode. rewrite H. reflexivity.
  - destruct args as [|a [|b args]]; try reflexivity.
    destruct (H a eq_refl) as [Hraw Hstd]. unfold switchMode.
    apply String.eqb_neq in Hraw, Hstd. now rewrite Hraw, Hstd.
  - destruct args as [|a [|b args]]; try reflexivity.
    destruct (H a eq_refl) as [Hraw Hstd]. unfold switchMode.
    apply String.eqb_neq in Hraw, Hstd. now rewrite Hraw, Hstd.
Qed.

(** C9 (as amended).  For a forwarded command of at least two tokens whose
    first token lower-cases to [select]: when the store reports no error the
    selected database becomes the value [strconv.Atoi] gives for the second
    token, and it is left as it was when the store reports an error.  The
    value of [Atoi] is the integer the token denotes when the token is a
    numeral in the range of [int]; its error is ignored, and its value is
    then zero on a syntax error and the largest or the smallest [int] on a
    range error. *)
Theorem select_updates_dbn :
  forall (c0 a : string) (rest : list string) (st st1 : state)
         (r : reply) (err : option string),
    connect st = Return tt st1 ->
    lower c0 = "select" ->
    redis_Do (calls st1) [lower c0; EmptyString] = (r, err) ->
    dbn (final_state (send (c0 :: a :: rest) st))
    = (if is_nil err then fst (Atoi a) else dbn st)
    /\ (forall v, numeral_value a = Some v -> minInt <= v <= maxInt ->
                  Atoi a = (v, None))
    /\ (forall v e, Atoi a = (v, Some e) ->
                    (e = ErrSyntax /\ v = 0)
                    \/ (e = ErrRange /\ (v = maxInt \/ v = minInt))).
Proof.
  intros c0 a rest st st1 r err Hc Hsel Hdo.
  split; [|split; [|intros v e; apply Atoi_error]].
  - assert (Hdbn : dbn st1 = dbn st).
    { revert Hc. unfold cliConnect, sendPing.
      destruct (negb (client st)); [destruct (redis_Ping _)|];
        intros H; inversion H; reflexivity. }
    unfold cliSendCommand. rewrite Hc. cbn [bind]. rewrite Hdo.
    rewrite (lower_select c0 Hsel).
    destruct err as [e|]; cbn; [exact Hdbn|].
    destruct (lower c0 =? "info")%string; cbn; [reflexivity|].
    destruct (printReply _ _ _ _); reflexivity.
  - intros v Hv Hrange. rewrite (Atoi_numeral a v Hv).
    destruct (Z.leb_spec minInt v); [|lia].
    destruct (Z.leb_spec v maxInt); [reflexivity | lia].
Qed.

(** C10.  On the path where the command lower-cases to [select] and the
    store reports no error, [cliSendCommand] reads the second token whatever
    the number of tokens: it panics, on the index out of range, exactly when
    the command has fewer than two tokens; a [select] alone panics right
    after its request. *)
Theorem select_index_out_of_range :
  forall (c0 : string) (rest : list string) (st st1 : state) (r : reply),
    connect st = Return tt st1 ->
    lower c0 = "select" ->
    redis_Do (calls st1) [lower c0; EmptyString] = (r, None) ->
    depth r <= 2 ^ 61 ->
    ((exists st', send (c0 :: rest) st = Panic st')
     <-> (List.length (c0 :: rest) < 2)%nat)
    /\ send [c0] st = Panic (log (CallDo [lower c0; EmptyString]) st1).
Proof.
  intros c0 rest st st1 r Hc Hsel Hdo Hd.
  assert (Hone : send [c0] st
                 = Panic (log (CallDo [lower c0; EmptyString]) st1)).
  { unfold cliSendCommand. rewrite Hc. cbn [bind]. rewrite Hdo.
    rewrite (lower_select c0 Hsel). reflexivity. }
  split; [|exact Hone]. split.
  - intros (st' & Hp). destruct rest as [|a rest]; [simpl; lia|].
    destruct (cliSendCommand_code c0 (a :: rest) st st1 r None Hc Hdo Hd)
      as (st2 & Hr); [discriminate|].
    rewrite Hr in Hp. discriminate.
  - intros Hlen. destruct rest as [|a rest]; [|simpl in Hlen; lia].
    eexists. exact Hone.
Qed.

End CliFacts.

(* ================================================================== *)
(** * The program run on concrete inputs                               *)
(* ================================================================== *)

(** C1 (the code departs from the claim).  Run with the positional arguments
    [set k v] on a store that answers, the process makes one request after
    its ping, and the request is [set] with one empty argument: the tokens
    [k] and [v] are not sent. *)
Theorem noninteractive_sends_first_token_only :
  calls (final_state (run_main ping_ok store_ok ["set"; "k"; "v"]))
  = [CallPing; CallDo ["set"; EmptyString]].
Proof. reflexivity. Qed.

(** C8 (the code departs from the claim).  The exit status is 0 for a
    command the store acknowledges, 1 with no request made when the ping
    fails, and 255, from the code -1, when the store reports an error; but
    for [select] alone, acknowledged by the store, [cliSendCommand] does not
    return 0: the process panics and ends with status 2. *)
Theorem select_alone_exit_status :
  exit_status (run_main ping_ok store_ok ["get"]) = Some 0
  /\ exit_status (run_main ping_refused store_ok ["get"]) = Some 1
  /\ calls (final_state (run_main ping_refused store_ok ["get"])) = [CallPing]
  /\ run_main ping_ok store_err ["get"]
     = Exit (-1) (print ("(error) ERR unknown command" ++ nl)
                    (log (CallDo ["get"; EmptyString]) connected))
  /\ exit_status (run_main ping_ok store_err ["get"]) = Some 255
  /\ run_main ping_ok store_ok ["select"]
     = Panic (log (CallDo ["select"; EmptyString]) connected)
  /\ exit_status (run_main ping_ok store_ok ["select"]) = Some 2.
Proof. repeat (split; [reflexivity|]). reflexivity. Qed.

(** C2, counterexample.  In standard mode the text string [two] is printed
    as it is, not quoted. *)
Lemma text_string_not_quoted :
  printStdReply no_tables 0 (RString "two") = Ok "two"
  /\ printStdReply no_tables 0 (RString "two") <> Ok (Quote no_tables "two").
Proof. split; [reflexivity | discriminate]. Qed.

(** C9, counterexample.  [select 99999999999999999999], acknowledged by the
    store: the parse of the second token fails and the selected database is
    not zero but the largest [int]. *)
Lemma select_out_of_range_not_zero :
  snd (Atoi big_index) = Some ErrRange
  /\ dbn (final_state (run_main ping_ok store_ok ["select"; big_index]))
     = maxInt
  /\ dbn (final_state (run_main ping_ok store_ok ["select"; big_index])) <> 0.
Proof. split; [reflexivity|]. split; [reflexivity | discriminate]. Qed.

(** [AUTH mypassword] and [Connect host 6379 secret] in the history. *)
Lemma appendHistory_masks_witness :
  appendHistory no_tables keep_all ["AUTH"; "mypassword"] (initial 0)
  = set_history ["AUTH ******"] (initial 0)
  /\ appendHistory no_tables keep_all ["Connect"; "host"; "6379"; "secret"]
       (initial 0)
     = set_history ["Connect host 6379 ******"] (initial 0).
Proof.
  split.
  - apply (proj1 (appendHistory_masks no_tables keep_all
                    "AUTH" "mypassword" "" "" (initial 0))).
    reflexivity.
  - apply (proj1 (proj2 (appendHistory_masks no_tables keep_all
                           "Connect" "host" "6379" "secret" (initial 0)))).
    reflexivity.
Defined.

(** The nested sequence of the specification, in standard mode. *)
Lemma printStdReply_sequence_witness :
  exists ss : list string,
    Forall2 (fun v s => printStdReply no_tables (0 + 1) v = Ok s) nested ss
    /\ printStdReply no_tables 0 (RArray nested)
       = Ok (numbered_list 0 (List.length nested) 0 ss).
Proof.
  apply (printStdReply_sequence no_tables 0 nested).
  - lia.
  - simpl. lia.
  - unfold maxInt. simpl. lia.
Defined.

(** The same sequence in raw mode. *)
Lemma printRawReply_spec_witness :
  exists ss : list string,
    Forall2 (fun v s => printRawReply (0 + 1) v = Ok s) nested ss
    /\ printRawReply 0 (RArray nested)
       = Ok (plain_list 0 (List.length nested) 0 ss).
Proof.
  apply (proj2 (proj2 (proj2 (proj2 (proj2
           (printRawReply_spec 0 0 "" "" "" nested)))))).
  - lia.
  - simpl. lia.
Defined.

(** The texts of the two renderings: three lines, the third holding the
    nested list, whose second line is indented by four spaces; in raw mode
    no label, no decoration and nothing for nil. *)
Lemma nested_rendered :
  printStdReply no_tables 0 (RArray nested)
  = Ok ("1)  (integer) 1" ++ nl ++ "2)  two" ++ nl
        ++ "3)  1)  (integer) 3" ++ nl ++ "    2)  (nil)")
  /\ printRawReply 0 (RArray nested)
     = Ok ("1" ++ nl ++ "two" ++ nl ++ "3" ++ nl ++ "    ").
Proof. split; reflexivity. Qed.

(** [mode RAW], [mode Std] and [mode xyz]. *)
Lemma switchMode_spec_witness :
  switchMode no_tables ["RAW"] (initial 0) = set_mode rawMode (initial 0)
  /\ switchMode no_tables ["Std"] (set_mode rawMode (initial 0))
     = set_mode stdMode (set_mode rawMode (initial 0))
  /\ switchMode no_tables ["xyz"] (set_mode rawMode (initial 0))
     = print (usage ++ nl) (set_mode rawMode (initial 0))
  /\ mode (switchMode no_tables ["xyz"] (set_mode rawMode (initial 0)))
     = rawMode.
Proof.
  split; [|split].
  - apply (proj1 (switchMode_spec no_tables ["RAW"] (initial 0)) "RAW");
      reflexivity.
  - apply (proj1 (proj2 (switchMode_spec no_tables ["Std"]
                           (set_mode rawMode (initial 0)))) "Std");
      reflexivity.
  - apply (proj2 (proj2 (switchMode_spec no_tables ["xyz"]
                           (set_mode rawMode (initial 0))))).
    intros a H. injection H as <-. split; discriminate.
Defined.

(** [SELECT 3], acknowledged and rejected by the store. *)
Lemma select_updates_dbn_witness :
  dbn (final_state
         (cliSendCommand no_tables no_tables ping_ok store_ok
            ["SELECT"; "3"] (initial 0))) = 3
  /\ dbn (final_state
            (cliSendCommand no_tables no_tables ping_ok store_err
               ["SELECT"; "3"] (initial 7))) = 7.
Proof.
  split.
  - apply (proj1 (select_updates_dbn no_tables no_tables ping_ok store_ok
                    "SELECT" "3" [] (initial 0) connected (RString "OK") None
                    eq_refl eq_refl eq_refl)).
  - apply (proj1 (select_updates_dbn no_tables no_tables ping_ok store_err
                    "SELECT" "3" [] (initial 7)
                    (set_dbn 7 connected) RNil
                    (Some "ERR unknown command")
                    eq_refl eq_refl eq_refl)).
Defined.

(** [select] alone panics, [select 3] does not. *)
Lemma select_index_out_of_range_witness :
  cliSendCommand no_tables no_tables ping_ok store_ok ["select"] (initial 0)
  = Panic (log (CallDo ["select"; EmptyString]) connected)
  /\ ~ (exists st',
          cliSendCommand no_tables no_tables ping_ok store_ok
            ["select"; "3"] (initial 0) = Panic st').
Proof.
  split.
  - apply (proj2 (select_index_out_of_range no_tables no_tables ping_ok
                    store_ok "select" [] (initial 0) connected (RString "OK")
                    eq_refl eq_refl eq_refl
                    ltac:(simpl; lia))).
  - intros H.
    apply (proj1 (proj1 (select_index_out_of_range no_tables no_tables
                           ping_ok store_ok "select" ["3"] (initial 0)
                           connected (RString "OK")
                           eq_refl eq_refl eq_refl ltac:(simpl; lia))))
      in H.
    simpl in H. lia.
Defined.

(** [strconv.Atoi] on a numeral, on a text that is not one, and on numerals
    out of range. *)
Lemma Atoi_examples :
  Atoi "3" = (3, None)
  /\ Atoi "-12" = (-12, None)
  /\ Atoi "abc" = (0, Some ErrSyntax)
  /\ Atoi EmptyString = (0, Some ErrSyntax)
  /\ Atoi big_index = (maxInt, Some ErrRange)
  /\ Atoi ("-" ++ big_index) = (minInt, Some ErrRange).
Proof. repeat (split; [reflexivity|]). reflexivity. Qed.

(** A quoted span closes at the first quote, and a run that follows it
    starts right after it. *)
Lemma tokenize_examples :
  tokenize "get  'a b'  c" = ["get"; "'a b'"; "c"]
  /\ tokenize "'a'b" = ["'a'"; "b"]
  /\ tokenize "it's" = ["it's"]
  /\ tokenize "   " = [].
Proof. repeat (split; [reflexivity|]). reflexivity. Qed.

(** A session: after [mode RAW] the replies are printed raw, and [mode xyz]
    leaves the mode as it is. *)
Lemma mode_raw_session :
  stdout (final_state (session [Line "get k"]))
  = "(integer) 5" ++ nl ++ "EOF" ++ nl
  /\ stdout (final_state (session [Line "mode RAW"; Line "get k"]))
     = "5" ++ nl ++ "EOF" ++ nl
  /\ stdout (final_state
               (session [Line "mode RAW"; Line "mode xyz"; Line "get k"]))
     = usage ++ nl ++ "5" ++ nl ++ "EOF" ++ nl.
Proof. split; [|split]; reflexivity. Qed.

(** The nested sequence of the specification with a byte slice for its
    second element: in standard mode the element is quoted. *)
Lemma nested_bytes_quoted :
  printStdReply no_tables 0
    (RArray [RInt 1; RBytes "two"; RArray [RInt 3; RNil]])
  = Ok ("1)  (integer) 1" ++ nl ++ "2)  " ++ str dquote ++ "two" ++ str dquote
        ++ nl ++ "3)  1)  (integer) 3" ++ nl ++ "    2)  (nil)").
Proof. reflexivity. Qed.

(* ================================================================== *)
(** * Further properties of the tokenizer                              *)
(* ================================================================== *)

Import Shell Props.

(** X1.  A line gives no token exactly when it is empty or all white space:
    these are the lines on which [repl] prompts again without doing
    anything. *)
Theorem tokenize_nil_iff_blank :
  forall line : string, tokenize line = [] <-> blank line = true.
Proof.
  intros line. split.
  - intros H.
    pose proof (find_all_tokens (String.length line) line (Nat.le_refl _))
      as Ht.
    unfold tokenize, FindAllString in H. rewrite H in Ht.
    inversion Ht. assumption.
  - apply find_all_blank.
Qed.

(** In front of white space or of the end of the line, a plain word is the
    next match. *)
Lemma scan_plain_word (w rest : string) :
  plain_word w = true ->
  (rest = EmptyString \/ exists c r, rest = String c r /\ is_space c = true) ->
  scan (w ++ rest) = Some rest.
Proof.
  destruct w as [|c w]; [discriminate|]. unfold plain_word.
  intros H Hrest.
  apply andb_true_iff in H as [H Hall].
  apply andb_true_iff in H as [Hs Hd].
  apply negb_true_iff in Hs, Hd.
  simpl in Hall. apply andb_true_iff in Hall as [Hc Hall].
  apply negb_true_iff in Hc.
  cbn [append scan]. rewrite Hs, Hd, Hc.
  now rewrite skip_run_app.
Qed.

Lemma find_all_plain_word (fuel : nat) (w rest : string) :
  plain_word w = true ->
  (rest = EmptyString \/ exists c r, rest = String c r /\ is_space c = true) ->
  find_all (S fuel) reg (w ++ rest) = w :: find_all fuel reg rest.
Proof.
  intros Hw Hrest.
  pose proof (scan_plain_word w rest Hw Hrest) as Hscan.
  destruct w as [|c w]; [discriminate|].
  cbn [append find_all] in *. rewrite run_reg, Hscan.
  change (String c (w ++ rest)) with (String c w ++ rest).
  assert (Hlen : String.length (String c w ++ rest)
                 = (String.length (String c w) + String.length rest)%nat)
    by apply length_append.
  replace (shorter rest (String c w ++ rest)) with true
    by (symmetry; unfold shorter; apply Nat.ltb_lt; rewrite Hlen; simpl; lia).
  replace (String.length (String c w ++ rest) - String.length rest)%nat
    with (String.length (String c w)) by lia.
  now rewrite substring_prefix.
Qed.

Lemma find_all_join :
  forall (ws : list string) (fuel : nat),
    Forall (fun w => plain_word w = true) ws ->
    (String.length (Join ws " ") <= fuel)%nat ->
    find_all fuel reg (Join ws " ") = ws.
Proof.
  induction ws as [|w ws IH]; intros fuel Hall Hfuel.
  - destruct fuel; reflexivity.
  - inversion Hall as [|? ? Hw Hall']; subst.
    assert (Hpos : (0 < String.length w)%nat)
      by (destruct w; [discriminate | simpl; lia]).
    destruct ws as [|w2 ws].
    + cbn [Join] in *.
      destruct fuel as [|fuel]; [lia|].
      pose proof (find_all_plain_word fuel w EmptyString Hw
                    (or_introl eq_refl)) as E.
      rewrite append_nil_r in E. rewrite E.
      destruct fuel; reflexivity.
    + change (Join (w :: w2 :: ws) " ")
        with (w ++ String space (Join (w2 :: ws) " ")) in *.
      rewrite length_append in Hfuel. cbn [String.length] in Hfuel.
      destruct fuel as [|[|fuel]]; try lia.
      rewrite find_all_plain_word;
        [|exact Hw | right; exists space, (Join (w2 :: ws) " "); now split].
      f_equal. cbn [find_all]. rewrite run_reg.
      rewrite scan_space by reflexivity.
      apply IH; [exact Hall' | lia].
Qed.

(** X2.  Plain words (not empty, without white space, not starting with a
    quote) joined by single spaces come back from the tokenizer as they
    were: tokenizing undoes [strings.Join] on them. *)
Theorem tokenize_join_plain_words :
  forall ws : list string,
    Forall (fun w => plain_word w = true) ws ->
    tokenize (Join ws " ") = ws.
Proof.
  intros ws Hall. apply find_all_join; [exact Hall | apply Nat.le_refl].
Qed.

Lemma tokenize_join_plain_words_witness :
  tokenize (Join ["SET"; "it's"; "a=b"] " ") = ["SET"; "it's"; "a=b"].
Proof.
  apply (tokenize_join_plain_words ["SET"; "it's"; "a=b"]).
  repeat constructor.
Defined.

(* ================================================================== *)
(** * Further properties of the client                                 *)
(* ================================================================== *)

Ltac fields :=
  cbn [client dbn mode history stdout stderr calls set_client set_dbn
       set_mode set_history print eprint log final_state bind emit Cli.index
       nth_error].

Lemma pings_snoc (cs : list call) (c : call) :
  pings (cs ++ [c]) = (pings cs + (if is_ping c then 1 else 0))%nat.
Proof.
  unfold pings. rewrite filter_app, length_app. simpl.
  destruct (is_ping c); reflexivity.
Qed.

Lemma requests_snoc (cs : list call) (c : call) :
  requests (cs ++ [c]) = (requests cs + (if is_request c then 1 else 0))%nat.
Proof.
  unfold requests. rewrite filter_app, length_app. simpl.
  destruct (is_request c); reflexivity.
Qed.

Lemma print_nil (st : state) : print EmptyString st = st.
Proof. destruct st. unfold print. simpl. now rewrite append_nil_r. Qed.

Lemma print_print (s t : string) (st : state) :
  print t (print s st) = print (s ++ t) st.
Proof. unfold print. simpl. now rewrite append_assoc. Qed.

Lemma only_prints_refl (st : state) : only_prints st st.
Proof. exists EmptyString. symmetry. apply print_nil. Qed.

Lemma only_prints_print (s : string) (st st' : state) :
  only_prints st st' -> only_prints st (print s st').
Proof. intros (t & ->). exists (t ++ s). apply print_print. Qed.

Lemma only_prints_trans (st st' st'' : state) :
  only_prints st st' -> only_prints st' st'' -> only_prints st st''.
Proof. intros H (t & ->). now apply only_prints_print. Qed.

Section ClientFacts.
Variable unicode_lower : string -> string.
Variable quote_wide : string -> string.
Variable redis_Ping : list call -> option string.
Variable redis_Do : list call -> list string -> reply * option string.

Local Abbreviation lower := (ToLower unicode_lower).
Local Abbreviation connect := (cliConnect redis_Ping).
Local Abbreviation send :=
  (cliSendCommand unicode_lower quote_wide redis_Ping redis_Do).

(** The three ways of [cliConnect]: the client is there already; a fresh
    client is made and its ping succeeds; or its ping fails. *)
Lemma cliConnect_cases (st : state) :
  (client st = true /\ connect st = Return tt st)
  \/ (client st = false /\ redis_Ping (calls st) = None
      /\ connect st = Return tt (log CallPing (set_client true st)))
  \/ (exists e, client st = false /\ redis_Ping (calls st) = Some e
                /\ connect st
                   = Exit 1 (print (e ++ nl)
                               (log CallPing (set_client true st)))).
Proof.
  unfold cliConnect, sendPing. destruct (client st) eqn:Hc; cbn [negb].
  - now left.
  - right. cbn [calls set_client].
    destruct (redis_Ping (calls st)) as [e|] eqn:Hp.
    + right. now exists e.
    + now left.
Qed.

(** X3.  [cliConnect] is idempotent: once it has returned the client is
    there, connecting again changes nothing and pings no more; and on a
    state that has a client it changes nothing in the first place. *)
Theorem cliConnect_reuses_client :
  forall st st1 : state,
    connect st = Return tt st1 ->
    client st1 = true
    /\ connect st1 = Return tt st1
    /\ (client st = true -> st1 = st).
Proof.
  intros st st1 H.
  assert (Hc : client st1 = true).
  { destruct (cliConnect_cases st) as [[Hc E]|[(Hc & Hp & E)|(e & Hc & Hp & E)]];
      rewrite E in H; inversion H; subst; [exact Hc | reflexivity]. }
  split; [exact Hc|]. split.
  - unfold cliConnect. now rewrite Hc.
  - intros Hst. unfold cliConnect in H. rewrite Hst in H. now inversion H.
Qed.

(** X4.  When the store reports an error the function prints it after the
    marker [(error) ], renders nothing of the reply, leaves the selected
    database alone and returns -1, whatever the command, [select] and [info]
    included. *)
Theorem cliSendCommand_store_error :
  forall (c0 : string) (rest : list string) (st st1 : state)
         (r : reply) (e : string),
    connect st = Return tt st1 ->
    redis_Do (calls st1) [lower c0; EmptyString] = (r, Some e) ->
    send (c0 :: rest) st
    = Return (-1) (print ("(error) " ++ e ++ nl)
                     (log (CallDo [lower c0; EmptyString]) st1)).
Proof.
  intros c0 rest st st1 r e Hc Hdo. unfold cliSendCommand.
  rewrite Hc. cbn [bind]. rewrite Hdo. reflexivity.
Qed.

(** X5.  The reply of [info] does not go through the renderer: it is printed
    by [printInfo] in either mode, followed by a newline; and when the reply
    is a text string, as opposed to a byte slice, nothing of it is printed. *)
Theorem cliSendCommand_info :
  forall (c0 : string) (rest : list string) (st st1 : state) (r : reply),
    connect st = Return tt st1 ->
    lower c0 = "info" ->
    redis_Do (calls st1) [lower c0; EmptyString] = (r, None) ->
    send (c0 :: rest) st
    = Return 0 (print nl (print (printInfo r)
                            (log (CallDo [lower c0; EmptyString]) st1)))
    /\ (forall s, r = RString s ->
                  stdout (final_state (send (c0 :: rest) st))
                  = stdout st1 ++ nl).
Proof.
  intros c0 rest st st1 r Hc Hinfo Hdo.
  assert (E : send (c0 :: rest) st
              = Return 0 (print nl (print (printInfo r)
                            (log (CallDo [lower c0; EmptyString]) st1)))).
  { unfold cliSendCommand. rewrite Hc. cbn [bind]. rewrite Hdo.
    rewrite Hinfo. reflexivity. }
  split; [exact E|].
  intros s ->. rewrite E. fields. cbn [printInfo].
  now rewrite append_nil_r.
Qed.

(** X6.  [cliSendCommand] never changes the output mode, the history or the
    error stream, and it always leaves a client behind; the selected
    database changes for no command but [select]. *)
Theorem cliSendCommand_frame :
  forall (cmds : list string) (st : state),
    mode (final_state (send cmds st)) = mode st
    /\ history (final_state (send cmds st)) = history st
    /\ stderr (final_state (send cmds st)) = stderr st
    /\ client (final_state (send cmds st)) = true
    /\ ((forall c0 rest, cmds = c0 :: rest -> lower (lower c0) <> "select") ->
        dbn (final_state (send cmds st)) = dbn st).
Proof.
  intros cmds st. unfold cliSendCommand.
  destruct (cliConnect_cases st)
    as [[Hc E]|[(Hc & Hp & E)|(e & Hc & Hp & E)]]; rewrite E;
    cbn [bind]; try (fields; now rewrite ?Hc).
  - destruct cmds as [|c0 rest]; [fields; now rewrite Hc|].
    destruct (redis_Do _ _) as [r [e|]]; cbn [is_nil andb]; fields.
    + now rewrite Hc.
    + destruct (String.eqb_spec (lower (lower c0)) "select") as [Es|Es].
      * destruct rest as [|a rest]; cbn [nth_error]; fields;
          [repeat split; auto; intros H; now destruct (H c0 [] eq_refl)|].
        destruct (lower c0 =? "info")%string; fields;
          [repeat split; auto;
           intros H; now destruct (H c0 (a :: rest) eq_refl)|].
        destruct (printReply _ _ _ _); fields; repeat split; auto;
          intros H; now destruct (H c0 (a :: rest) eq_refl).
      * destruct (lower c0 =? "info")%string; fields;
          [repeat split; auto|].
        destruct (printReply _ _ _ _); fields; repeat split; auto.
  - destruct cmds as [|c0 rest]; [fields; repeat split; reflexivity|].
    destruct (redis_Do _ _) as [r [e|]]; cbn [is_nil andb]; fields.
    + repeat split; reflexivity.
    + destruct (String.eqb_spec (lower (lower c0)) "select") as [Es|Es].
      * destruct rest as [|a rest]; cbn [nth_error]; fields;
          [repeat split; auto; intros H; now destruct (H c0 [] eq_refl)|].
        destruct (lower c0 =? "info")%string; fields;
          [repeat split; auto;
           intros H; now destruct (H c0 (a :: rest) eq_refl)|].
        destruct (printReply _ _ _ _); fields; repeat split; auto;
          intros H; now destruct (H c0 (a :: rest) eq_refl).
      * destruct (lower c0 =? "info")%string; fields;
          [repeat split; auto|].
        destruct (printReply _ _ _ _); fields; repeat split; auto.
Qed.

End ClientFacts.

(* ================================================================== *)
(** * Help, history and the session as a whole                         *)
(* ================================================================== *)

Lemma only_prints_fields (st st' : state) :
  only_prints st st' ->
  client st' = client st /\ dbn st' = dbn st /\ mode st' = mode st
  /\ history st' = history st /\ stderr st' = stderr st
  /\ calls st' = calls st.
Proof. intros (s & ->). repeat split. Qed.

Lemma local_outcome_trans {A : Type} (st st' : state) (o : outcome A) :
  only_prints st st' -> local_outcome st' o -> local_outcome st o.
Proof.
  intros H. destruct o as [a s|code s|s]; cbn [local_outcome];
    [apply only_prints_trans | tauto | apply only_prints_trans]; exact H.
Qed.

Lemma local_outcome_bind {A B : Type} (st : state) (m : outcome A)
  (f : A -> state -> outcome B) :
  local_outcome st m ->
  (forall a s, only_prints st s -> local_outcome s (f a s)) ->
  local_outcome st (bind m f).
Proof.
  destruct m as [a s|code s|s]; cbn [local_outcome bind]; intros H Hf;
    [|contradiction | exact H].
  apply (local_outcome_trans st s); [exact H | now apply Hf].
Qed.

Lemma index_local (l : list string) (i : nat) (st : state) :
  local_outcome st (Cli.index l i st).
Proof.
  unfold Cli.index. destruct (nth_error l i); apply only_prints_refl.
Qed.

Lemma printCommandHelp_local (arr : list string) (st : state) :
  local_outcome st (printCommandHelp arr st).
Proof.
  unfold printCommandHelp.
  destruct arr as [|a0 [|a1 [|a2 arr]]];
    cbn [bind Cli.index nth_error local_outcome];
    repeat apply only_prints_print; apply only_prints_refl.
Qed.

Lemma session_ok_weaken {A : Type} (n m : nat) (st : state) (o : outcome A) :
  (n <= m)%nat -> session_ok n st o -> session_ok m st o.
Proof. unfold session_ok. intros Hn (H1 & H2 & H3 & H4). repeat split; auto; lia. Qed.

Lemma session_ok_from {A : Type} (n : nat) (st st2 : state) (o : outcome A) :
  pings (calls st2) = pings (calls st) ->
  requests (calls st2) = requests (calls st) ->
  session_ok n st2 o -> session_ok n st o.
Proof.
  unfold session_ok. intros Hp Hr (H1 & H2 & H3 & H4).
  repeat split; auto; congruence.
Qed.

Lemma session_ok_local {A : Type} (st : state) (o : outcome A) :
  client st = true -> local_outcome st o -> session_ok 0 st o.
Proof.
  intros Hc H. unfold session_ok.
  destruct o as [a s|code s|s]; cbn [local_outcome] in H; [|contradiction|];
    destruct (only_prints_fields _ _ H) as (H1 & _ & _ & _ & _ & H6);
    cbn [final_state no_error_exit]; rewrite H1, H6;
    repeat split; auto; lia.
Qed.

Lemma session_ok_bind {A B : Type} (n k : nat) (st : state) (m : outcome A)
  (f : A -> state -> outcome B) :
  session_ok n st m ->
  (forall a s, client s = true -> session_ok k s (f a s)) ->
  session_ok (n + k) st (bind m f).
Proof.
  unfold session_ok.
  destruct m as [a s|code s|s]; cbn [bind final_state no_error_exit];
    intros (H1 & H2 & H3 & H4) Hf.
  - destruct (Hf a s H1) as (F1 & F2 & F3 & F4).
    repeat split; auto; [congruence | lia].
  - repeat split; auto; lia.
  - repeat split; auto; lia.
Qed.

Section SessionFacts.
Variable unicode_lower : string -> string.
Variable unicode_upper : string -> string.
Variable quote_wide : string -> string.
Variable redis_Ping : list call -> option string.
Variable redis_Do : list call -> list string -> reply * option string.
Variable liner_AppendHistory : list string -> string -> list string.
Variable helpCommands : list (list string).
Variables hostname port socket : string.

Local Abbreviation lower := (ToLower unicode_lower).
Local Abbreviation connect := (cliConnect redis_Ping).
Local Abbreviation send :=
  (cliSendCommand unicode_lower quote_wide redis_Ping redis_Do).
Local Abbreviation append_history :=
  (appendHistory unicode_lower liner_AppendHistory).
Local Abbreviation help := (printHelp unicode_upper helpCommands).
Local Abbreviation prompt := (prompt_text hostname port socket).
Local Abbreviation loop :=
  (repl_loop unicode_lower unicode_upper quote_wide redis_Ping redis_Do
     liner_AppendHistory helpCommands hostname port socket).
Local Abbreviation run_repl :=
  (repl unicode_lower unicode_upper quote_wide redis_Ping redis_Do
     liner_AppendHistory helpCommands hostname port socket).
Local Abbreviation run :=
  (main unicode_lower unicode_upper quote_wide redis_Ping redis_Do
     liner_AppendHistory helpCommands hostname port socket).

Lemma printHelp_loop_local (cmd : string) :
  forall (table : list (list string)) (st : state),
    local_outcome st (printHelp_loop cmd table st).
Proof.
  induction table as [|row table IH]; intros st; cbn [printHelp_loop].
  - apply only_prints_refl.
  - apply local_outcome_bind; [apply index_local|]. intros name s Hs.
    apply local_outcome_bind.
    + destruct (name =? cmd)%string;
        [apply printCommandHelp_local | apply only_prints_refl].
    + intros _ s' _. apply IH.
Qed.

Lemma printHelp_local (cmds : list string) (st : state) :
  local_outcome st (help cmds st).
Proof.
  unfold printHelp. destruct cmds as [|c [|a0 [|a1 args]]];
    cbn [local_outcome].
  - apply only_prints_refl.
  - unfold printGenericHelp. apply only_prints_print, only_prints_refl.
  - apply printHelp_loop_local.
  - apply only_prints_print, only_prints_refl.
Qed.

(** What [cliSendCommand] does to the log of calls: a ping when there was no
    client, at most one request; and with a client it does not end the
    process. *)
Lemma send_effect (cmds : list string) (st : state) :
  client (final_state (send cmds st)) = true
  /\ pings (calls (final_state (send cmds st)))
     = (pings (calls st) + (if client st then 0 else 1))%nat
  /\ (requests (calls (final_state (send cmds st)))
      <= requests (calls st) + 1)%nat
  /\ (client st = true -> no_error_exit (send cmds st)).
Proof.
  unfold cliSendCommand.
  destruct (cliConnect_cases redis_Ping st)
    as [[Hc E]|[(Hc & Hp & E)|(e & Hc & Hp & E)]]; rewrite E, Hc;
    cbn [bind].
  - destruct cmds as [|c0 rest];
      [fields; cbn [no_error_exit]; repeat split; auto; lia|].
    destruct (redis_Do _ _) as [r [e|]]; cbn [is_nil andb];
      [fields; rewrite ?requests_snoc, ?pings_snoc;
       cbn [is_ping is_request no_error_exit]; repeat split; auto; lia|].
    destruct (lower (lower c0) =? "select")%string;
      [destruct rest as [|a rest]|]; fields;
      try (destruct (lower c0 =? "info")%string; fields;
           [|destruct (printReply _ _ _ _); fields]);
      rewrite ?requests_snoc, ?pings_snoc;
      cbn [is_ping is_request no_error_exit]; repeat split; auto; lia.
  - destruct cmds as [|c0 rest];
      [fields; rewrite ?requests_snoc, ?pings_snoc;
       cbn [is_ping is_request]; repeat split; try lia; discriminate|].
    destruct (redis_Do _ _) as [r [e|]]; cbn [is_nil andb];
      [fields; rewrite ?requests_snoc, ?pings_snoc;
       cbn [is_ping is_request]; repeat split; try lia; discriminate|].
    destruct (lower (lower c0) =? "select")%string;
      [destruct rest as [|a rest]|]; fields;
      try (destruct (lower c0 =? "info")%string; fields;
           [|destruct (printReply _ _ _ _); fields]);
      rewrite ?requests_snoc, ?pings_snoc;
      cbn [is_ping is_request]; repeat split; try lia; discriminate.
  - fields. rewrite ?requests_snoc, ?pings_snoc. cbn [is_ping is_request].
    repeat split; try lia; discriminate.
Qed.

Lemma send_session (cmds : list string) (st : state) :
  client st = true -> session_ok 1 st (send cmds st).
Proof.
  intros Hc. destruct (send_effect cmds st) as (H1 & H2 & H3 & H4).
  rewrite Hc in H2. unfold session_ok. repeat split; auto; lia.
Qed.

Lemma switchMode_calls (args : list string) (st : state) :
  client (switchMode unicode_lower args st) = client st
  /\ calls (switchMode unicode_lower args st) = calls st.
Proof.
  unfold switchMode. destruct args as [|a0 [|a1 args]]; try (split; reflexivity).
  destruct (negb _ && negb _); [split; reflexivity|].
  destruct (_ =? "std")%string; [split; reflexivity|].
  destruct (_ =? "raw")%string; split; reflexivity.
Qed.

(** From a state with a client, the loop of [repl] keeps the client, never
    pings, makes at most one request for each line it reads, and ends the
    process with no status but 0. *)
Lemma repl_loop_session :
  forall (terminal : list prompt_result) (st : state),
    client st = true ->
    session_ok (List.length terminal) st (loop terminal st).
Proof.
  induction terminal as [|[l|msg] t IH]; intros st Hc; cbn [repl_loop].
  - unfold session_ok. fields. rewrite pings_snoc, requests_snoc.
    cbn [is_ping is_request no_error_exit]. repeat split; auto; lia.
  - assert (H1 : session_ok (S (List.length t)) (log (CallPrompt (prompt st)) st)
                   (loop (Line l :: t) st) ->
                 session_ok (S (List.length t)) st (loop (Line l :: t) st)).
    { apply session_ok_from; fields;
        [rewrite pings_snoc | rewrite requests_snoc]; cbn; lia. }
    cbn [List.length]. apply H1. clear H1. cbn [repl_loop].
    set (st1 := log (CallPrompt (prompt st)) st).
    assert (Hc1 : client st1 = true) by exact Hc.
    destruct (tokenize l) as [|c0 rest].
    { apply (session_ok_weaken (List.length t)); [lia | now apply IH]. }
    set (st2 := append_history (c0 :: rest) st1).
    assert (Hc2 : client st2 = true) by exact Hc1.
    apply (session_ok_from _ st1 st2); [reflexivity | reflexivity |].
    apply (session_ok_bind 1 (List.length t)); [|intros _ s Hs; now apply IH].
    destruct (_ || _).
    { apply (session_ok_weaken 0); [lia|].
      apply session_ok_local; [exact Hc2 | apply printHelp_local]. }
    destruct (_ || _).
    { unfold session_ok. cbn [final_state no_error_exit].
      repeat split; auto; lia. }
    destruct (_ =? "clear")%string.
    { unfold session_ok. fields. cbn [no_error_exit].
      repeat split; auto; lia. }
    destruct (_ =? "mode")%string.
    { destruct (switchMode_calls (tl (c0 :: rest)) st2) as [S1 S2].
      unfold session_ok. cbn [final_state no_error_exit].
      rewrite S1, S2. repeat split; auto; lia. }
    pose proof (send_session (c0 :: rest) st2 Hc2) as Hs.
    unfold session_ok in *.
    destruct (send (c0 :: rest) st2) as [a s|code s|s];
      cbn [bind final_state no_error_exit] in *; exact Hs.
  - unfold session_ok. fields. rewrite pings_snoc, requests_snoc.
    cbn [is_ping is_request no_error_exit]. repeat split; auto; lia.
Qed.

(** What [repl] does to the log of calls, whatever the state it starts
    from. *)
Lemma repl_effect (showWelcome : bool) (terminal : list prompt_result)
  (st : state) :
  pings (calls (final_state (run_repl showWelcome terminal st)))
  = (pings (calls st) + (if client st then 0 else 1))%nat
  /\ (requests (calls (final_state (run_repl showWelcome terminal st)))
      <= requests (calls st) + List.length terminal)%nat
  /\ client (final_state (run_repl showWelcome terminal st)) = true
  /\ (client st = true \/ redis_Ping (calls st) = None ->
      no_error_exit (run_repl showWelcome terminal st)).
Proof.
  unfold repl.
  destruct (cliConnect_cases redis_Ping st)
    as [[Hc E]|[(Hc & Hp & E)|(e & Hc & Hp & E)]]; rewrite E, Hc;
    cbn [bind].
  - set (st1 := if showWelcome then showWelcomeMsg st else st).
    assert (H1 : client st1 = true /\ calls st1 = calls st)
      by (unfold st1; destruct showWelcome; split; auto).
    destruct H1 as [Hc1 Hk1].
    destruct (repl_loop_session terminal st1 Hc1) as (L1 & L2 & L3 & L4).
    rewrite Hk1 in *. repeat split; auto; lia.
  - set (st0 := log CallPing (set_client true st)).
    set (st1 := if showWelcome then showWelcomeMsg st0 else st0).
    assert (H1 : client st1 = true /\ calls st1 = (calls st ++ [CallPing])%list)
      by (unfold st1; destruct showWelcome; split; reflexivity).
    destruct H1 as [Hc1 Hk1].
    destruct (repl_loop_session terminal st1 Hc1) as (L1 & L2 & L3 & L4).
    rewrite Hk1, ?pings_snoc, ?requests_snoc in *.
    cbn [is_ping is_request] in *. repeat split; auto; lia.
  - fields. rewrite pings_snoc, requests_snoc. cbn [is_ping is_request].
    repeat split; try lia. intros [H|H]; congruence.
Qed.

Lemma final_state_exit (o : outcome Z) :
  final_state (bind o (fun code st => @Exit Z code st)) = final_state o.
Proof. destruct o; reflexivity. Qed.

(** X7.  When the ping of the fresh client fails the process prints the
    error of the ping and exits with code 1, having made no request and read
    no line: with positional arguments and without. *)
Theorem main_ping_failure :
  forall (outputRaw showWelcome : bool) (args : list string)
         (terminal : list prompt_result) (st : state) (e : string),
    client st = false ->
    redis_Ping (calls st) = Some e ->
    run outputRaw showWelcome args terminal st
    = Exit 1 (print (e ++ nl)
                (log CallPing
                   (set_client true
                      (set_mode (if outputRaw then rawMode else stdMode)
                                st)))).
Proof.
  intros outputRaw showWelcome args terminal st e Hc Hp. unfold main.
  set (st0 := set_mode (if outputRaw then rawMode else stdMode) st).
  assert (Hc0 : client st0 = false) by exact Hc.
  assert (Hp0 : redis_Ping (calls st0) = Some e) by exact Hp.
  destruct args as [|a args]; cbn [List.length Nat.eqb bind].
  - unfold repl.
    destruct (cliConnect_cases redis_Ping st0)
      as [[Hc' E]|[(Hc' & Hp' & E)|(e' & Hc' & Hp' & E)]]; try congruence.
    assert (e' = e) by congruence. subst e'. now rewrite E.
  - unfold noninteractive.
    now rewrite (cliSendCommand_ping_failure unicode_lower quote_wide
                   redis_Ping redis_Do (a :: args) st0 e Hc0 Hp0).
Qed.

(** X8.  A process pings the store exactly once, whatever its arguments and
    whatever is typed: the client made by the first [cliConnect] serves every
    later command. *)
Theorem main_single_ping :
  forall (outputRaw showWelcome : bool) (args : list string)
         (terminal : list prompt_result) (st : state),
    client st = false ->
    pings (calls (final_state (run outputRaw showWelcome args terminal st)))
    = (pings (calls st) + 1)%nat.
Proof.
  intros outputRaw showWelcome args terminal st Hc. unfold main.
  set (st0 := set_mode (if outputRaw then rawMode else stdMode) st).
  assert (Hc0 : client st0 = false) by exact Hc.
  change (calls st) with (calls st0).
  destruct args as [|a args]; cbn [List.length Nat.eqb].
  - destruct (repl_effect showWelcome terminal st0) as (R1 & _ & R3 & _).
    rewrite Hc0 in R1.
    destruct (run_repl showWelcome terminal st0) as [u s|code s|s];
      cbn [bind final_state] in *; try exact R1.
    unfold noninteractive, cliSendCommand, cliConnect. rewrite R3.
    cbn [negb bind final_state]. exact R1.
  - cbn [bind]. unfold noninteractive. rewrite final_state_exit.
    destruct (send_effect (a :: args) st0) as (_ & S2 & _).
    now rewrite Hc0 in S2.
Qed.

(** X9.  An interactive session whose ping succeeded never ends with a
    status other than 0, whatever the store answers to the commands typed:
    the process exits with code 0, at [quit], [exit] or the end of the
    input, or it panics. *)
Theorem interactive_exit_status :
  forall (outputRaw showWelcome : bool) (terminal : list prompt_result)
         (st : state),
    client st = false ->
    redis_Ping (calls st) = None ->
    match run outputRaw showWelcome [] terminal st with
    | Return _ _ => False
    | Exit code _ => code = 0
    | Panic _ => True
    end.
Proof.
  intros outputRaw showWelcome terminal st Hc Hp. unfold main.
  set (st0 := set_mode (if outputRaw then rawMode else stdMode) st).
  cbn [List.length Nat.eqb].
  destruct (repl_effect showWelcome terminal st0) as (_ & _ & R3 & R4).
  specialize (R4 (or_intror Hp)).
  destruct (run_repl showWelcome terminal st0) as [u s|code s|s];
    cbn [bind final_state no_error_exit] in *; auto.
  unfold noninteractive, cliSendCommand, cliConnect. rewrite R3.
  reflexivity.
Qed.

(** A log that is paced without a request to start with is paced with
    one. *)
Lemma paced_weaken (terminal : list prompt_result) (cs : list call) :
  paced false terminal cs = true -> paced true terminal cs = true.
Proof.
  induction cs as [|[|args|p] cs IH]; cbn [paced]; auto. discriminate.
Qed.

(** A log without prompts and with at most one request fits between a
    prompt that read a line and the rest of a paced log. *)
Lemma paced_app (may : bool) (terminal : list prompt_result)
  (new rest : list call) :
  prompts new = 0%nat -> (requests new <= (if may then 1 else 0))%nat ->
  paced false terminal rest = true ->
  paced may terminal (new ++ rest) = true.
Proof.
  revert may. unfold prompts, requests.
  induction new as [|[|args|p] new IH]; intros may Hp Hr Hrest;
    cbn [app paced filter is_prompt is_request List.length] in *.
  - destruct may; [now apply paced_weaken | exact Hrest].
  - now apply IH.
  - destruct may; [|lia]. apply (IH false); [exact Hp | simpl; lia | exact Hrest].
  - discriminate.
Qed.

(** In a paced log the requests are at most as many as the lines read. *)
Lemma paced_requests :
  forall (cs : list call) (may : bool) (terminal : list prompt_result),
    paced may terminal cs = true ->
    (requests cs <= (if may then 1 else 0) + lines_read terminal cs)%nat.
Proof.
  unfold requests.
  induction cs as [|[|args|p] cs IH]; intros may terminal H;
    cbn [paced lines_read filter is_request List.length] in *.
  - lia.
  - now apply IH.
  - apply andb_true_iff in H as [-> H]. specialize (IH false terminal H).
    simpl in IH. lia.
  - destruct terminal as [|[l|msg] t].
    + specialize (IH false [] H). simpl in IH. lia.
    + specialize (IH true t H). simpl in IH. lia.
    + specialize (IH false [] H). simpl in IH. lia.
Qed.

Lemma one_request_quiet {A : Type} (st : state) (o : outcome A) :
  calls (final_state o) = calls st -> one_request st o.
Proof.
  intros H. exists []. rewrite app_nil_r. repeat split; auto.
Qed.

Lemma one_request_local {A : Type} (st : state) (o : outcome A) :
  local_outcome st o -> one_request st o.
Proof.
  intros H. apply one_request_quiet.
  destruct o as [a s|code s|s]; cbn [local_outcome final_state] in *;
    try contradiction; destruct H as [t ->]; reflexivity.
Qed.

(** [cliSendCommand] adds a ping when there was no client, and at most one
    request; it never prompts. *)
Lemma send_one_request (cmds : list string) (st : state) :
  one_request st (send cmds st).
Proof.
  assert (H0 : forall cs : list call, cs = (cs ++ [])%list)
    by (intros; now rewrite app_nil_r).
  assert (H2 : forall (cs : list call) (a b : call),
             ((cs ++ [a]) ++ [b] = cs ++ [a; b])%list)
    by (intros; now rewrite <- app_assoc).
  unfold cliSendCommand, one_request.
  destruct (cliConnect_cases redis_Ping st)
    as [[Hc E]|[(Hc & Hp & E)|(e & Hc & Hp & E)]]; rewrite E;
    cbn [bind].
  - destruct cmds as [|c0 rest].
    { exists []. fields. repeat split; auto. }
    destruct (redis_Do _ _) as [r [e|]]; cbn [is_nil andb].
    { eexists. fields. repeat split; auto. }
    destruct (lower (lower c0) =? "select")%string;
      [destruct rest as [|a rest]|]; fields;
      try (destruct (lower c0 =? "info")%string; fields;
           [|destruct (printReply _ _ _ _); fields]);
      eexists; repeat split; auto.
  - destruct cmds as [|c0 rest].
    { eexists. fields. repeat split; auto. }
    destruct (redis_Do _ _) as [r [e|]]; cbn [is_nil andb].
    { eexists. fields. repeat split; auto. }
    destruct (lower (lower c0) =? "select")%string;
      [destruct rest as [|a rest]|]; fields;
      try (destruct (lower c0 =? "info")%string; fields;
           [|destruct (printReply _ _ _ _); fields]);
      eexists; repeat split; auto.
  - eexists. fields. repeat split; auto.
Qed.

(** The loop of [repl] makes a request only after a prompt that read a line,
    and at most one before it prompts again. *)
Lemma repl_loop_paced :
  forall (terminal : list prompt_result) (st : state),
    exists new : list call,
      calls (final_state (loop terminal st)) = (calls st ++ new)%list
      /\ paced false terminal new = true.
Proof.
  induction terminal as [|[l|msg] t IH]; intros st; cbn [repl_loop].
  - exists [CallPrompt (prompt st)]. split; reflexivity.
  - set (st1 := log (CallPrompt (prompt st)) st).
    destruct (tokenize l) as [|c0 rest].
    { destruct (IH st1) as (new & E & Hn).
      exists (CallPrompt (prompt st) :: new). split.
      - rewrite E. unfold st1. fields. now rewrite <- app_assoc.
      - cbn [paced]. now apply paced_weaken. }
    set (st2 := append_history (c0 :: rest) st1).
    match goal with
    | |- context [bind ?b _] =>
        assert (Hb : one_request st2 b); [|set (o := b) in *]
    end.
    { destruct (_ || _); [apply one_request_local, printHelp_local|].
      destruct (_ || _); [now apply one_request_quiet|].
      destruct (_ =? "clear")%string; [now apply one_request_quiet|].
      destruct (_ =? "mode")%string.
      { apply one_request_quiet. cbn [final_state].
        apply (switchMode_calls (tl (c0 :: rest)) st2). }
      destruct (send_one_request (c0 :: rest) st2) as (n & E & Hn).
      exists n. split; [|exact Hn].
      destruct (send (c0 :: rest) st2); exact E. }
    destruct Hb as (n & E & Hp & Hr).
    change (calls st2) with (calls st ++ [CallPrompt (prompt st)])%list in E.
    destruct o as [u s|code s|s]; cbn [bind final_state] in *.
    + destruct (IH s) as (new & E' & Hn).
      exists (CallPrompt (prompt st) :: n ++ new). split.
      * rewrite E', E. now rewrite <- !app_assoc.
      * cbn [paced]. now apply paced_app.
    + exists (CallPrompt (prompt st) :: n ++ []). split.
      * rewrite E, app_nil_r. now rewrite <- app_assoc.
      * cbn [paced]. now apply paced_app.
    + exists (CallPrompt (prompt st) :: n ++ []). split.
      * rewrite E, app_nil_r. now rewrite <- app_assoc.
      * cbn [paced]. now apply paced_app.
  - exists [CallPrompt (prompt st)]. split; reflexivity.
Qed.

(** X10.  An interactive session makes at most one request to the store for
    each line it reads: in the calls it adds to the log, every request comes
    after a prompt that read a line, and at most one request comes between
    that prompt and the next.  No request is made before the first prompt or
    after a prompt that failed, so the requests are at most as many as the
    lines read. *)
Theorem repl_requests_bounded :
  forall (showWelcome : bool) (terminal : list prompt_result) (st : state),
  exists new : list call,
    calls (final_state (run_repl showWelcome terminal st))
    = (calls st ++ new)%list
    /\ paced false terminal new = true
    /\ (requests new <= lines_read terminal new)%nat.
Proof.
  intros showWelcome terminal st.
  assert (H : exists new : list call,
             calls (final_state (run_repl showWelcome terminal st))
             = (calls st ++ new)%list
             /\ paced false terminal new = true).
  { unfold repl.
    destruct (cliConnect_cases redis_Ping st)
      as [[Hc E]|[(Hc & Hp & E)|(e & Hc & Hp & E)]]; rewrite E;
      cbn [bind].
    - set (st1 := if showWelcome then showWelcomeMsg st else st).
      assert (Hk : calls st1 = calls st)
        by (unfold st1; destruct showWelcome; reflexivity).
      destruct (repl_loop_paced terminal st1) as (new & E1 & Hn).
      exists new. now rewrite E1, Hk.
    - set (st0 := log CallPing (set_client true st)).
      set (st1 := if showWelcome then showWelcomeMsg st0 else st0).
      assert (Hk : calls st1 = (calls st ++ [CallPing])%list)
        by (unfold st1; destruct showWelcome; reflexivity).
      destruct (repl_loop_paced terminal st1) as (new & E1 & Hn).
      exists (CallPing :: new). split; [|exact Hn].
      rewrite E1, Hk. now rewrite <- app_assoc.
    - exists [CallPing]. split; reflexivity. }
  destruct H as (new & E & Hn). exists new. repeat split; auto.
  apply (paced_requests new false terminal Hn).
Qed.

(** What [paced] lets through and what it does not: one request after a
    line; not two requests after one line, not a request after a prompt that
    failed, not a request before the first prompt.  And a session that quits
    at its first line reads one line and makes no request, whatever follows
    on the terminal. *)
Lemma paced_examples :
  paced false [Line "get a"; PromptErr "EOF"]
    [CallPing; CallPrompt "> "; CallDo ["get"]; CallPrompt "> "] = true
  /\ paced false [Line "get a"]
       [CallPrompt "> "; CallDo ["get"]; CallDo ["get"]] = false
  /\ paced false [PromptErr "EOF"] [CallPrompt "> "; CallDo ["get"]] = false
  /\ paced false [Line "get a"] [CallDo ["get"]; CallPrompt "> "] = false
  /\ calls (final_state (session [Line "quit"; Line "get a"; Line "get b"]))
     = [CallPing; CallPrompt "127.0.0.1:6379> "]
  /\ calls (final_state (session [Line "get a"; Line "get b"]))
     = [CallPing; CallPrompt "127.0.0.1:6379> "; CallDo ["get"; EmptyString];
        CallPrompt "127.0.0.1:6379> "; CallDo ["get"; EmptyString];
        CallPrompt "127.0.0.1:6379> "].
Proof. repeat split; reflexivity. Qed.

(** X11.  A line that is empty or all white space does nothing: it is not
    tokenized into a command, not entered in the history and not sent; the
    loop prompts again. *)
Theorem repl_blank_line :
  forall (ws : string) (terminal : list prompt_result) (st : state),
    blank ws = true ->
    loop (Line ws :: terminal) st
    = loop terminal (log (CallPrompt (prompt st)) st).
Proof.
  intros ws terminal st Hb. cbn [repl_loop].
  unfold tokenize, FindAllString. now rewrite find_all_blank.
Qed.

Lemma quiet_bind (o : outcome unit) (st2 : state) :
  calls (final_state o) = calls st2 ->
  requests (calls (final_state (bind o (fun _ s => loop [] s))))
  = requests (calls st2)
  /\ pings (calls (final_state (bind o (fun _ s => loop [] s))))
     = pings (calls st2).
Proof.
  destruct o as [u s|code s|s]; cbn [bind final_state repl_loop];
    intros H; fields; rewrite ?requests_snoc, ?pings_snoc, H;
    cbn [is_ping is_request]; split; lia.
Qed.

(** X12.  The commands [help], [?], [quit], [exit], [clear] and [mode] are
    handled by the client itself: a line whose first token lower-cases to
    one of them makes no request to the store, and no ping. *)
Theorem meta_commands_local :
  forall (l c0 : string) (rest : list string) (st : state),
    tokenize l = c0 :: rest ->
    meta_command (lower c0) = true ->
    requests (calls (final_state (loop [Line l] st))) = requests (calls st)
    /\ pings (calls (final_state (loop [Line l] st))) = pings (calls st).
Proof.
  intros l c0 rest st Htok Hmeta. cbn [repl_loop]. rewrite Htok.
  set (st1 := log (CallPrompt (prompt st)) st).
  set (st2 := append_history (c0 :: rest) st1).
  assert (Hk : requests (calls st2) = requests (calls st)
               /\ pings (calls st2) = pings (calls st)).
  { change (calls st2) with (calls st ++ [CallPrompt (prompt st)])%list.
    rewrite requests_snoc, pings_snoc. cbn [is_ping is_request]. lia. }
  destruct Hk as [Hr Hp]. rewrite <- Hr, <- Hp.
  unfold meta_command in Hmeta.
  apply quiet_bind.
  destruct ((lower c0 =? "help")%string || (lower c0 =? "?")%string) eqn:E1.
  { pose proof (printHelp_local (c0 :: rest) st2) as Hl.
    destruct (help (c0 :: rest) st2) as [u s|code s|s];
      cbn [local_outcome final_state] in *; [|contradiction|];
      apply only_prints_fields in Hl; tauto. }
  destruct ((lower c0 =? "quit")%string || (lower c0 =? "exit")%string) eqn:E2;
    [reflexivity|].
  destruct (lower c0 =? "clear")%string eqn:E3; [reflexivity|].
  destruct (lower c0 =? "mode")%string eqn:E4.
  { cbn [final_state]. apply switchMode_calls. }
  exfalso. apply orb_false_iff in E2 as [C D].
  rewrite ?C, ?D in Hmeta. discriminate.
Qed.

(** X13.  Only the two shapes are masked: an entry that is not a two-token
    [auth] nor a four-token [connect] goes to the history as typed, its
    tokens joined by single spaces; so the password of a three-token
    [auth user password] is kept in clear. *)
Theorem appendHistory_unmasked :
  forall (cmds : list string) (st : state),
    (List.length cmds = 2%nat -> lower (nth 0 cmds EmptyString) <> "auth") ->
    (List.length cmds = 4%nat ->
     lower (nth 0 cmds EmptyString) <> "connect") ->
    append_history cmds st
    = set_history (liner_AppendHistory (history st) (Join cmds " ")) st.
Proof.
  intros cmds st H2 H4. unfold appendHistory.
  destruct (Nat.eqb_spec (List.length cmds) 2) as [E2|E2].
  - apply String.eqb_neq in H2; [|exact E2]. rewrite H2. cbn [andb].
    rewrite E2. reflexivity.
  - cbn [andb].
    destruct (Nat.eqb_spec (List.length cmds) 4) as [E4|E4]; [|reflexivity].
    apply String.eqb_neq in H4; [|exact E4]. now rewrite H4.
Qed.

Lemma printHelp_loop_returns (cmd : string) :
  forall (table : list (list string)) (st : state),
    Forall (fun row => (3 <= List.length row)%nat) table ->
    exists st', printHelp_loop cmd table st = Return tt st'
                /\ only_prints st st'.
Proof.
  induction table as [|row table IH]; intros st Hall; cbn [printHelp_loop].
  - exists st. split; [reflexivity | apply only_prints_refl].
  - inversion Hall as [|? ? Hrow Hall']; subst.
    destruct row as [|a0 [|a1 [|a2 row]]]; cbn [List.length] in Hrow; try lia.
    cbn [Cli.index nth_error bind].
    destruct (a0 =? cmd)%string.
    + unfold printCommandHelp. cbn [Cli.index nth_error bind].
      match goal with
      | |- exists st', printHelp_loop cmd table ?s = _ /\ _ =>
          destruct (IH s Hall') as (st' & E & Hp); exists st'; split;
            [exact E|]
      end.
      eapply only_prints_trans; [|exact Hp].
      repeat apply only_prints_print. apply only_prints_refl.
    + cbn [bind]. apply IH, Hall'.
Qed.

(** X14.  With a command table whose rows all have a name, a usage and a
    group, [printHelp] always returns, and it has only printed: it touches
    neither the store nor the mode, the selected database or the history. *)
Theorem printHelp_well_formed_table :
  forall (c : string) (args : list string) (st : state),
    Forall (fun row => (3 <= List.length row)%nat) helpCommands ->
    exists st', help (c :: args) st = Return tt st' /\ only_prints st st'.
Proof.
  intros c args st Hall. unfold printHelp.
  destruct args as [|a0 [|a1 args]].
  - eexists. split; [reflexivity|]. unfold printGenericHelp.
    apply only_prints_print, only_prints_refl.
  - now apply printHelp_loop_returns.
  - eexists. split; [reflexivity|].
    apply only_prints_print, only_prints_refl.
Qed.

Lemma printHelp_loop_no_match (cmd : string) :
  forall (table : list (list string)) (st : state),
    (forall row, In row table ->
                 exists name, nth_error row 0 = Some name /\ name <> cmd) ->
    printHelp_loop cmd table st = Return tt st.
Proof.
  induction table as [|row table IH]; intros st H; cbn [printHelp_loop];
    [reflexivity|].
  destruct (H row (or_introl eq_refl)) as (name & Hn & Hne).
  unfold Cli.index. rewrite Hn. cbn [bind].
  apply String.eqb_neq in Hne. rewrite Hne. cbn [bind].
  apply IH. intros r Hr. apply H. now right.
Qed.

(** X15.  [help] on a word that, upper-cased, names no row of the command
    table prints nothing at all, not even a message, and changes nothing. *)
Theorem printHelp_unknown_command :
  forall (c a : string) (st : state),
    (forall row, In row helpCommands ->
                 exists name, nth_error row 0 = Some name
                              /\ name <> ToUpper unicode_upper a) ->
    help [c; a] st = Return tt st.
Proof.
  intros c a st H. unfold printHelp. now apply printHelp_loop_no_match.
Qed.

End SessionFacts.

(** X16.  [printCommandHelp] reads the first three fields of a row: it panics
    exactly on a row of fewer than three fields, whatever it has printed by
    then. *)
Theorem printCommandHelp_bounds :
  forall (arr : list string) (st : state),
    (exists st', printCommandHelp arr st = Panic st')
    <-> (List.length arr < 3)%nat.
Proof.
  intros arr st. unfold printCommandHelp.
  destruct arr as [|a0 [|a1 [|a2 arr]]];
    cbn [Cli.index nth_error bind List.length]; split;
    try (intros _; lia); try (intros _; eexists; reflexivity).
  - intros (st' & H). discriminate.
  - intros H. lia.
Qed.

(* ================================================================== *)
(** * The completion handler: properties                               *)
(* ================================================================== *)

Lemma HasPrefix_spec :
  forall prefix s : string,
    HasPrefix s prefix = true <-> exists t, s = prefix ++ t.
Proof.
  induction prefix as [|p prefix IH]; intros s; cbn [HasPrefix].
  - split; [intros _; now exists s | intros _; destruct s; reflexivity].
  - destruct s as [|c s]; cbn [HasPrefix].
    + split; [discriminate | intros (t & H); discriminate].
    + rewrite andb_true_iff, IH. split.
      * intros (Hc & t & ->). apply Ascii.eqb_eq in Hc. subst. now exists t.
      * intros (t & H). injection H as -> ->.
        split; [apply Ascii.eqb_refl | now exists t].
Qed.

Section CompleterFacts.
Variable unicode_upper : string -> string.
Variable helpCommands : list (list string).

Lemma completer_loop_candidates (up : string) :
  forall (table : list (list string)) (c : list string),
    completer_loop up table = Ok c ->
    forall name : string,
      In name c <->
      exists row, In row table /\ nth_error row 0 = Some name
                  /\ HasPrefix name up = true.
Proof.
  induction table as [|row table IH]; intros c H name;
    cbn [completer_loop] in H.
  - injection H as <-. split; [intros [] | intros (row & [] & _)].
  - destruct (nth_error row 0) as [n|] eqn:En; [|discriminate].
    destruct (completer_loop up table) as [c'|] eqn:Ec; [|discriminate].
    cbn [rbind] in H. injection H as <-.
    specialize (IH c' eq_refl name). split.
    + intros Hin.
      assert (Hcases : (n = name /\ HasPrefix n up = true) \/ In name c').
      { destruct (HasPrefix n up) eqn:Ep; [|now right].
        destruct Hin as [->|Hin]; [now left | now right]. }
      destruct Hcases as [[-> Hp]|Hin'].
      * exists row. repeat split; auto. now left.
      * apply IH in Hin' as (r & Hr & Hn & Hp).
        exists r. repeat split; auto. now right.
    + intros (r & [<-|Hr] & Hn & Hp).
      * rewrite En in Hn. injection Hn as ->. rewrite Hp. now left.
      * assert (In name c') by (apply IH; now exists r).
        destruct (HasPrefix n up); [now right | assumption].
Qed.

(** X17.  The candidates the completer offers for a text are the names of
    the command table that start with the text upper-cased: every candidate
    is such a name, and every such name is a candidate. *)
Theorem completer_candidates :
  forall (line : string) (c : list string),
    completer unicode_upper helpCommands line = Ok c ->
    forall name : string,
      In name c <->
      exists row t, In row helpCommands /\ nth_error row 0 = Some name
                    /\ name = ToUpper unicode_upper line ++ t.
Proof.
  intros line c H name.
  rewrite (completer_loop_candidates _ _ _ H name). split.
  - intros (row & Hr & Hn & Hp). apply HasPrefix_spec in Hp as (t & Ht).
    now exists row, t.
  - intros (row & t & Hr & Hn & Ht). exists row. repeat split; auto.
    apply HasPrefix_spec. now exists t.
Qed.

Lemma completer_loop_panics (up : string) :
  forall table : list (list string),
    completer_loop up table = Panicked <-> Exists (fun row => row = []) table.
Proof.
  induction table as [|row table IH]; cbn [completer_loop].
  - split; [discriminate | intros H; inversion H].
  - destruct row as [|name row]; cbn [nth_error].
    + split; [intros _; now left | reflexivity].
    + destruct (completer_loop up table) as [c|]; cbn [rbind].
      * split; [discriminate|]. intros H. inversion H as [? ? Hn|? ? Ht];
          [discriminate|]. apply IH in Ht. discriminate.
      * split; [|reflexivity]. intros _. right. now apply IH.
Qed.

(** X18.  The completer panics exactly when the command table has a row
    without a name, and then whatever was typed. *)
Theorem completer_panics :
  forall line : string,
    completer unicode_upper helpCommands line = Panicked
    <-> Exists (fun row => row = []) helpCommands.
Proof. intros line. apply completer_loop_panics. Qed.

(** X19.  On an empty line the completer offers every command name, once for
    each row and in the order of the table. *)
Theorem completer_empty_line :
  Forall (fun row => row <> []) helpCommands ->
  completer unicode_upper helpCommands EmptyString
  = Ok (map (fun row => nth 0 row EmptyString) helpCommands).
Proof.
  unfold completer.
  change (ToUpper unicode_upper EmptyString) with EmptyString.
  induction helpCommands as [|row table IH]; intros Hall;
    cbn [completer_loop map]; [reflexivity|].
  inversion Hall as [|? ? Hrow Hall']; subst.
  destruct row as [|name row]; [contradiction|].
  cbn [nth_error nth]. rewrite (IH Hall'). cbn [rbind].
  now replace (HasPrefix name EmptyString) with true
    by (destruct name; reflexivity).
Qed.

End CompleterFacts.

(* ================================================================== *)
(** * A sequence at the top level is its elements, one on each line     *)
(* ================================================================== *)

Lemma plain_list_join :
  forall (ss : list string) (i : nat),
    plain_list 0 (i + List.length ss) i ss = Join ss nl.
Proof.
  induction ss as [|s ss IH]; intros i; [reflexivity|].
  cbn [plain_list List.length Join].
  replace (if (i =? 0)%nat then EmptyString else spaces (4 * 0))
    with EmptyString by (destruct (i =? 0)%nat; reflexivity).
  cbn [append].
  replace (i + S (List.length ss))%nat with (S i + List.length ss)%nat by lia.
  rewrite IH. destruct ss as [|s' ss].
  - replace (S i =? S i + List.length (@nil string))%nat with true
      by (symmetry; apply Nat.eqb_eq; simpl; lia).
    cbn [append Join]. apply append_nil_r.
  - replace (S i =? S i + List.length (s' :: ss))%nat with false
      by (symmetry; apply Nat.eqb_neq; simpl; lia).
    reflexivity.
Qed.

Lemma numbered_list_join :
  forall (ss : list string) (i : nat),
    numbered_list 0 (i + List.length ss) i ss = Join (labelled i ss) nl.
Proof.
  induction ss as [|s ss IH]; intros i; [reflexivity|].
  cbn [numbered_list List.length labelled Join].
  replace (if (i =? 0)%nat then EmptyString else spaces (4 * 0))
    with EmptyString by (destruct (i =? 0)%nat; reflexivity).
  cbn [append].
  replace (i + S (List.length ss))%nat with (S i + List.length ss)%nat by lia.
  rewrite IH. destruct ss as [|s' ss].
  - replace (S i =? S i + List.length (@nil string))%nat with true
      by (symmetry; apply Nat.eqb_eq; simpl; lia).
    cbn [append Join labelled]. now rewrite !append_nil_r.
  - replace (S i =? S i + List.length (s' :: ss))%nat with false
      by (symmetry; apply Nat.eqb_neq; simpl; lia).
    cbn [labelled]. now rewrite append_assoc.
Qed.

(** X20.  In raw mode a sequence at the top level is printed as the raw
    renderings of its elements at level 1, joined by single newlines: nothing
    is printed before the first rendering or after the last, and nothing but
    one newline between two of them.  What a rendering itself holds is
    another matter: that of an error ends with a newline of its own, that of
    a sequence inside spans several lines, indented from the second on. *)
Theorem printRawReply_top_level :
  forall vs : list reply,
    depth (RArray vs) <= 2 ^ 61 ->
    exists ss : list string,
      Forall2 (fun v s => printRawReply 1 v = Ok s) vs ss
      /\ printRawReply 0 (RArray vs) = Ok (Join ss nl).
Proof.
  intros vs Hd.
  destruct (Forall_exists_Forall2
              (fun v s => printRawReply 1 v = Ok s) vs) as (ss & HF).
  { apply Forall_forall. intros v Hin.
    pose proof (depth_element v vs Hin).
    apply printRawReply_total; lia. }
  exists ss. split; [exact HF|]. cbn [printRawReply].
  rewrite (raw_loop 0 (List.length vs) vs ss ltac:(lia) HF 0%nat eq_refl).
  f_equal. rewrite (Forall2_length HF). apply (plain_list_join ss 0).
Qed.

(** X21.  In standard mode a sequence at the top level is printed as its
    elements, each after its label, joined by newlines. *)
Theorem printStdReply_top_level :
  forall (quote_wide : string -> string) (vs : list reply),
    depth (RArray vs) <= 2 ^ 61 ->
    Z.of_nat (List.length vs) <= maxInt ->
    exists ss : list string,
      Forall2 (fun v s => printStdReply quote_wide 1 v = Ok s) vs ss
      /\ printStdReply quote_wide 0 (RArray vs)
         = Ok (Join (labelled 0 ss) nl).
Proof.
  intros quote_wide vs Hd Hn.
  destruct (Forall_exists_Forall2
              (fun v s => printStdReply quote_wide 1 v = Ok s) vs)
    as (ss & HF).
  { apply Forall_forall. intros v Hin.
    pose proof (depth_element v vs Hin).
    apply printStdReply_total; lia. }
  exists ss. split; [exact HF|]. cbn [printStdReply].
  rewrite (std_loop quote_wide 0 (List.length vs) vs ss ltac:(lia) Hn HF
             0%nat eq_refl).
  f_equal. rewrite (Forall2_length HF). apply (numbered_list_join ss 0).
Qed.

(* ================================================================== *)
(** * The further properties on concrete inputs                        *)
(* ================================================================== *)

(** A fresh process connects; connecting again changes nothing. *)
Lemma cliConnect_reuses_client_witness :
  client connected = true
  /\ cliConnect ping_ok connected = Return tt connected
  /\ (client (initial 0) = true -> connected = initial 0).
Proof.
  apply (cliConnect_reuses_client ping_ok (initial 0) connected).
  reflexivity.
Defined.

(** [get k] against a server that cannot be reached. *)
Lemma main_ping_failure_witness :
  main no_tables no_tables no_tables ping_refused store_ok keep_all []
       "127.0.0.1" "6379" EmptyString false false ["get"; "k"] [] (initial 0)
  = Exit 1
      (print ("dial tcp 127.0.0.1:6379: connect: connection refused" ++ nl)
         (log CallPing (set_client true (set_mode stdMode (initial 0))))).
Proof.
  apply (main_ping_failure no_tables no_tables no_tables ping_refused
           store_ok keep_all [] "127.0.0.1" "6379" EmptyString false false
           ["get"; "k"] [] (initial 0));
    reflexivity.
Defined.

(** [GET k] rejected by the store. *)
Lemma cliSendCommand_store_error_witness :
  cliSendCommand no_tables no_tables ping_ok store_err ["GET"; "k"]
    (initial 0)
  = Return (-1)
      (print ("(error) " ++ "ERR unknown command" ++ nl)
         (log (CallDo [ToLower no_tables "GET"; EmptyString]) connected)).
Proof.
  apply (cliSendCommand_store_error no_tables no_tables ping_ok store_err
           "GET" ["k"] (initial 0) connected RNil "ERR unknown command");
    reflexivity.
Defined.

(** [INFO] answered with a text string: only the newline is printed. *)
Lemma cliSendCommand_info_witness :
  stdout (final_state
            (cliSendCommand no_tables no_tables ping_ok store_ok ["INFO"]
               (initial 0)))
  = stdout connected ++ nl.
Proof.
  apply (proj2 (cliSendCommand_info no_tables no_tables ping_ok store_ok
                  "INFO" [] (initial 0) connected (RString "OK")
                  eq_refl eq_refl eq_refl) "OK").
  reflexivity.
Defined.

(** [get k] leaves the selected database 7 as it is. *)
Lemma cliSendCommand_frame_witness :
  dbn (final_state
         (cliSendCommand no_tables no_tables ping_ok store_ok ["get"; "k"]
            (initial 7))) = 7.
Proof.
  apply (proj2 (proj2 (proj2 (proj2
           (cliSendCommand_frame no_tables no_tables ping_ok store_ok
              ["get"; "k"] (initial 7)))))).
  intros c0 rest H. injection H as <- <-. discriminate.
Defined.

(** A session of three commands on one connection. *)
Lemma main_single_ping_witness :
  pings (calls (final_state
                  (main no_tables no_tables no_tables ping_ok store_ok
                     keep_all help_table "127.0.0.1" "6379" EmptyString
                     false false []
                     [Line "get a"; Line "get b"; Line "get c"]
                     (initial 0))))
  = (pings (calls (initial 0)) + 1)%nat.
Proof.
  apply (main_single_ping no_tables no_tables no_tables ping_ok store_ok
           keep_all help_table "127.0.0.1" "6379" EmptyString false false []
           [Line "get a"; Line "get b"; Line "get c"] (initial 0)).
  reflexivity.
Defined.

(** A session on a store that rejects every command still exits with 0. *)
Lemma interactive_exit_status_witness :
  match main no_tables no_tables no_tables ping_ok store_err keep_all
             help_table "127.0.0.1" "6379" EmptyString false false []
             [Line "get a"; Line "quit"] (initial 0)
  with
  | Return _ _ => False
  | Exit code _ => code = 0
  | Panic _ => True
  end.
Proof.
  apply (interactive_exit_status no_tables no_tables no_tables ping_ok
           store_err keep_all help_table "127.0.0.1" "6379" EmptyString
           false false [Line "get a"; Line "quit"] (initial 0));
    reflexivity.
Defined.

(** A line of three spaces. *)
Lemma repl_blank_line_witness :
  repl_loop no_tables no_tables no_tables ping_ok store_ok keep_all
    help_table "127.0.0.1" "6379" EmptyString
    [Line "   "; Line "quit"] connected
  = repl_loop no_tables no_tables no_tables ping_ok store_ok keep_all
      help_table "127.0.0.1" "6379" EmptyString
      [Line "quit"]
      (log (CallPrompt (prompt_text "127.0.0.1" "6379" EmptyString connected))
         connected).
Proof.
  apply (repl_blank_line no_tables no_tables no_tables ping_ok store_ok
           keep_all help_table "127.0.0.1" "6379" EmptyString "   "
           [Line "quit"] connected).
  reflexivity.
Defined.

(** [MODE raw] makes no request. *)
Lemma meta_commands_local_witness :
  requests (calls (final_state
                     (repl_loop no_tables no_tables no_tables ping_ok
                        store_ok keep_all help_table "127.0.0.1" "6379"
                        EmptyString [Line "MODE raw"] connected)))
  = requests (calls connected)
  /\ pings (calls (final_state
                     (repl_loop no_tables no_tables no_tables ping_ok
                        store_ok keep_all help_table "127.0.0.1" "6379"
                        EmptyString [Line "MODE raw"] connected)))
     = pings (calls connected).
Proof.
  apply (meta_commands_local no_tables no_tables no_tables ping_ok store_ok
           keep_all help_table "127.0.0.1" "6379" EmptyString
           "MODE raw" "MODE" ["raw"] connected);
    reflexivity.
Defined.

(** [auth alice secret] is stored with its password. *)
Lemma appendHistory_unmasked_witness :
  appendHistory no_tables keep_all ["auth"; "alice"; "secret"] (initial 0)
  = set_history ["auth alice secret"] (initial 0).
Proof.
  apply (appendHistory_unmasked no_tables keep_all
           ["auth"; "alice"; "secret"] (initial 0));
    intros H; discriminate H.
Defined.

(** [help get] on a table of three-field rows. *)
Lemma printHelp_well_formed_table_witness :
  exists st',
    printHelp no_tables help_table ["help"; "get"] (initial 0)
    = Return tt st'
    /\ only_prints (initial 0) st'.
Proof.
  apply (printHelp_well_formed_table no_tables help_table "help" ["get"]
           (initial 0)).
  unfold help_table. repeat (constructor; [simpl; lia|]). constructor.
Defined.

(** [help nosuch]. *)
Lemma printHelp_unknown_command_witness :
  printHelp no_tables help_table ["help"; "nosuch"] (initial 0)
  = Return tt (initial 0).
Proof.
  apply (printHelp_unknown_command no_tables help_table "help" "nosuch"
           (initial 0)).
  intros row Hin. simpl in Hin.
  destruct Hin as [<-|[<-|[<-|[]]]]; eexists; split;
    try reflexivity; discriminate.
Defined.

(** The candidates for [ge] are [GET] and [GETSET]. *)
Lemma completer_candidates_witness :
  In "GETSET" ["GET"; "GETSET"] <->
  exists row t, In row help_table /\ nth_error row 0 = Some "GETSET"
                /\ "GETSET" = ToUpper no_tables "ge" ++ t.
Proof.
  apply (completer_candidates no_tables help_table "ge" ["GET"; "GETSET"]
           eq_refl "GETSET").
Defined.

(** An empty line offers the three names of the table. *)
Lemma completer_empty_line_witness :
  completer no_tables help_table EmptyString = Ok ["GET"; "GETSET"; "SET"].
Proof.
  apply (completer_empty_line no_tables help_table).
  unfold help_table. repeat (constructor; [discriminate|]). constructor.
Defined.

(** The nested sequence of the specification at the top level. *)
Lemma printRawReply_top_level_witness :
  exists ss : list string,
    Forall2 (fun v s => printRawReply 1 v = Ok s) nested ss
    /\ printRawReply 0 (RArray nested) = Ok (Join ss nl).
Proof.
  apply (printRawReply_top_level nested). simpl. lia.
Defined.

Lemma printStdReply_top_level_witness :
  exists ss : list string,
    Forall2 (fun v s => printStdReply no_tables 1 v = Ok s) nested ss
    /\ printStdReply no_tables 0 (RArray nested)
       = Ok (Join (labelled 0 ss) nl).
Proof.
  apply (printStdReply_top_level no_tables nested).
  - simpl. lia.
  - unfold maxInt. simpl. lia.
Defined.

(* ================================================================== *)
(** * From the command line to the output, and from select to the prompt *)
(* ================================================================== *)

Section EndToEnd.
Variable unicode_lower : string -> string.
Variable unicode_upper : string -> string.
Variable quote_wide : string -> string.
Variable redis_Ping : list call -> option string.
Variable redis_Do : list call -> list string -> reply * option string.
Variable liner_AppendHistory : list string -> string -> list string.
Variable helpCommands : list (list string).
Variables hostname port socket : string.

Local Abbreviation lower := (ToLower unicode_lower).
Local Abbreviation connect := (cliConnect redis_Ping).
Local Abbreviation send :=
  (cliSendCommand unicode_lower quote_wide redis_Ping redis_Do).
Local Abbreviation run :=
  (main unicode_lower unicode_upper quote_wide redis_Ping redis_Do
     liner_AppendHistory helpCommands hostname port socket).

(** X22.  After a [select] the store acknowledged, with a numeral in the
    range of [int] for second token, the prompt shows the number selected
    between brackets when it is from 1 to 15, and no number otherwise: not
    for database 0, and not for 16 and above. *)
Theorem select_then_prompt :
  forall (c0 a : string) (rest : list string) (st st1 : state) (r : reply)
         (v : Z),
    connect st = Return tt st1 ->
    lower c0 = "select" ->
    redis_Do (calls st1) [lower c0; EmptyString] = (r, None) ->
    numeral_value a = Some v ->
    minInt <= v <= maxInt ->
    prompt_text hostname port socket (final_state (send (c0 :: a :: rest) st))
    = if (0 <? v) && (v <? 16)
      then addr hostname port socket ++ "[" ++ fmt_d v ++ "]> "
      else addr hostname port socket ++ "> ".
Proof.
  intros c0 a rest st st1 r v Hc Hsel Hdo Hnum Hrange.
  assert (Hv : fst (Atoi a) = v).
  { rewrite (Atoi_numeral a v Hnum).
    destruct (Z.leb_spec minInt v); [|lia].
    destruct (Z.leb_spec v maxInt); [reflexivity | lia]. }
  assert (Hdbn : dbn (final_state (send (c0 :: a :: rest) st)) = v).
  { unfold cliSendCommand. rewrite Hc. cbn [bind]. rewrite Hdo.
    rewrite (lower_select unicode_lower c0 Hsel). cbn [is_nil andb]. fields.
    rewrite Hsel. change ("select" =? "info")%string with false. fields.
    destruct (printReply _ _ _ _); fields; exact Hv. }
  unfold prompt_text. now rewrite Hdbn.
Qed.

(** X23.  A command given on the command line, other than [select] and
    [info], that the store answers without error: the process prints the
    reply, rendered raw with the flag [-raw] and standard without, then a
    newline, and exits with code 0, after one ping and one request. *)
Theorem noninteractive_output :
  forall (outputRaw showWelcome : bool) (c0 : string) (rest : list string)
         (terminal : list prompt_result) (st : state) (r : reply)
         (s : string),
    client st = false ->
    redis_Ping (calls st) = None ->
    redis_Do (calls st ++ [CallPing])%list [lower c0; EmptyString]
    = (r, None) ->
    lower (lower c0) <> "select" ->
    lower c0 <> "info" ->
    (if outputRaw then printRawReply 0 r else printStdReply quote_wide 0 r)
    = Ok s ->
    run outputRaw showWelcome (c0 :: rest) terminal st
    = Exit 0
        (print nl
           (print s
              (log (CallDo [lower c0; EmptyString])
                 (log CallPing
                    (set_client true
                       (set_mode (if outputRaw then rawMode else stdMode)
                                 st)))))).
Proof.
  intros outputRaw showWelcome c0 rest terminal st r s Hc Hp Hdo Hsel Hinfo
         Hs.
  unfold main.
  set (st0 := set_mode (if outputRaw then rawMode else stdMode) st).
  cbn [List.length Nat.eqb bind]. unfold noninteractive, cliSendCommand.
  destruct (cliConnect_cases redis_Ping st0)
    as [[Hc' E]|[(Hc' & Hp' & E)|(e' & Hc' & Hp' & E)]];
    [unfold st0 in Hc'; cbn [client set_mode] in Hc'; congruence
    | | unfold st0 in Hp'; cbn [calls set_mode] in Hp'; congruence].
  rewrite E. cbn [bind].
  assert (Hdo' : redis_Do (calls (log CallPing (set_client true st0)))
                   [lower c0; EmptyString] = (r, None)) by exact Hdo.
  rewrite Hdo'. apply String.eqb_neq in Hsel, Hinfo.
  rewrite Hsel, Hinfo. cbn [is_nil andb bind].
  assert (Hr : printReply quote_wide 0 r
                 (mode (log (CallDo [lower c0; EmptyString])
                          (log CallPing (set_client true st0))))
               = Ok s).
  { unfold st0. destruct outputRaw; exact Hs. }
  rewrite Hr. reflexivity.
Qed.

End EndToEnd.

(** [select 3] shows [[3]] in the prompt. *)
Lemma select_then_prompt_witness :
  prompt_text "127.0.0.1" "6379" EmptyString
    (final_state
       (cliSendCommand no_tables no_tables ping_ok store_ok ["select"; "3"]
          (initial 0)))
  = "127.0.0.1:6379[3]> ".
Proof.
  apply (select_then_prompt no_tables no_tables ping_ok store_ok
           "127.0.0.1" "6379" EmptyString "select" "3" [] (initial 0)
           connected (RString "OK") 3);
    try reflexivity.
  unfold minInt, maxInt. lia.
Defined.

(** [redis-cli -raw get k] on a store that answers 5. *)
Lemma noninteractive_output_witness :
  main no_tables no_tables no_tables ping_ok store_five keep_all help_table
       "127.0.0.1" "6379" EmptyString true false ["get"; "k"] [] (initial 0)
  = Exit 0
      (print nl
         (print "5"
            (log (CallDo [ToLower no_tables "get"; EmptyString])
               (log CallPing
                  (set_client true (set_mode rawMode (initial 0))))))).
Proof.
  apply (noninteractive_output no_tables no_tables no_tables ping_ok
           store_five keep_all help_table "127.0.0.1" "6379" EmptyString
           true false "get" ["k"] [] (initial 0) (RInt 5) "5");
    try reflexivity; discriminate.
Defined.
